(** * pyproxy-async: the proxy checker ([src/app/ip_checker.py])

    A shallow embedding of [IPChecker]: the three-stage validation pipeline
    ([http_check], [https_check], [rules_check]), the worker loop
    ([check_task]), the eviction sweeper ([remove_low_score_ip]) and the
    rebalancer ([recheck_ip_task], [resend_check_ip], [push_to_pool]).

    The coroutines are embedded as state-passing functions over a [World]
    that holds the Redis data, the wall clock, the answers of the network
    and the trace of log lines and sleeps.  A coroutine either returns,
    raises a Python exception, or blocks for ever on an empty queue.
    [run], which starts the tasks side by side, is not embedded: each task
    is followed on its own. *)

From Stdlib Require Import QArith.
From stdpp Require Import gmap strings list fin_maps pretty.
Local Open Scope Z_scope.
Set Warnings "-clear-no-such-hyp".

(** ** Python values used by the checker *)

(** The exception classes that occur in the file and in the libraries it
    calls.  All of them derive from [Exception], the class every handler of
    the file catches; interpreter signals that derive from [BaseException]
    only are outside the embedding. *)
Inductive exn :=
| AssertionError (msg : string)
| ValidationFailException
| ValueError (msg : string)
| AttributeError (msg : string)
| ClientError (msg : string)
| TimeoutError
| DecodeError (msg : string)
| RedisError (msg : string).

(** [str(e)] *)
Definition str_exn (e : exn) : string :=
  match e with
  | AssertionError msg => msg
  | ValidationFailException => ""
  | ValueError msg => msg
  | AttributeError msg => msg
  | ClientError msg => msg
  | TimeoutError => ""
  | DecodeError msg => msg
  | RedisError msg => msg
  end.

(** A decoded JSON document, as [resp.json()] returns it. *)
#[warnings="-register-all"]
Inductive JSON :=
| JNull
| JBool (b : bool)
| JNum (n : Z)
| JStr (s : string)
| JArr (items : list JSON)
| JObj (fields : list (string * JSON)).

Module Py.

(** Truth value of a Python object ([bool(v)]). *)
Definition truthy (v : JSON) : bool :=
  match v with
  | JNull => false
  | JBool b => b
  | JNum n => negb (n =? 0)
  | JStr s => negb (String.eqb s "")
  | JArr items => match items with [] => false | _ => true end
  | JObj fields => match fields with [] => false | _ => true end
  end.

(** The value a decoded object holds under [k]: a key that is repeated in
    the document keeps its last value. *)
Definition field (k : string) (fields : list (string * JSON)) : option JSON :=
  snd <$> last (filter (λ kv, kv.1 = k) fields).

(** [result.get(k)]: only a dict has [get]; a missing key gives [None]. *)
Definition get (result : JSON) (k : string) : exn + JSON :=
  match result with
  | JObj fields => inr (default JNull (field k fields))
  | _ => inl (AttributeError "object has no attribute 'get'")
  end.

(** [s.find(sub)]: the lowest index of [sub] in [s], or [-1]. *)
Definition find (s sub : string) : Z :=
  match String.index 0 sub s with
  | Some i => Z.of_nat i
  | None => -1
  end.

(** Truth value of an optional string: [None] and [''] are false. *)
Definition truthy_str (o : option string) : bool :=
  match o with
  | Some s => negb (String.eqb s "")
  | None => false
  end.

(** [s.replace(old, new, 1)] *)
Definition replace1 (old new s : string) : string :=
  match String.index 0 old s with
  | Some i =>
      String.substring 0 i s +:+ new +:+
      String.substring (i + String.length old) (String.length s - (i + String.length old)) s
  | None => s
  end.

(** [range(start, stop, step)] as the list it iterates over; a zero step
    raises [ValueError]. *)
Definition range (start stop step : Z) : exn + list Z :=
  if step =? 0 then inl (ValueError "range() arg 3 must not be zero")
  else if 0 <? step then
    inr ((λ k : nat, start + Z.of_nat k * step) <$>
         seq 0 (Z.to_nat ((stop - start + step - 1) / step)))
  else
    inr ((λ k : nat, start + Z.of_nat k * step) <$>
         seq 0 (Z.to_nat ((start - stop - step - 1) / (- step)))).

End Py.

(** ** Data *)

(** [RuleData] ([src/lib/structs.py]), with the attributes the checker reads. *)
Record RuleData := {
  key : string;
  url : string;
  contains : option string;
  enable : bool;
}.

(** An element of [Config.RULES].  The list is plain Python data, and
    [rules_check] asserts of each element that it is a [RuleData]. *)
Inductive RuleEntry :=
| IsRuleData (rule : RuleData)
| NotRuleData (repr : string).

(** [IPData] ([src/lib/structs.py]), with the attributes the checker reads
    and writes.  An outcome that no stage has set yet is [None]; [delay] is
    kept in microseconds, the resolution of [datetime]. *)
Record IPData := {
  ip_str : string;
  http : option bool;
  https : option bool;
  delay : option Z;
  rules : gmap string bool;
}.

Definition set_http (b : bool) (ip : IPData) : IPData :=
  {| ip_str := ip_str ip; http := Some b; https := https ip;
     delay := delay ip; rules := rules ip |}.

Definition set_https (b : bool) (ip : IPData) : IPData :=
  {| ip_str := ip_str ip; http := http ip; https := Some b;
     delay := delay ip; rules := rules ip |}.

Definition set_delay (d : Z) (ip : IPData) : IPData :=
  {| ip_str := ip_str ip; http := http ip; https := https ip;
     delay := Some d; rules := rules ip |}.

Definition set_rules (rs : gmap string bool) (ip : IPData) : IPData :=
  {| ip_str := ip_str ip; http := http ip; https := https ip;
     delay := delay ip; rules := rs |}.

(** Modelled from the spec: [IPData.with_str], [to_str] and [to_http] are in
    [src/lib/structs.py].  A check entry is created fresh for each pass from
    the endpoint string, which is its canonical form and parses into a proxy
    URL. *)
Definition with_str (s : string) : IPData :=
  {| ip_str := s; http := None; https := None; delay := None; rules := ∅ |}.

Definition to_str (ip : IPData) : string := ip_str ip.

Definition to_http (ip : IPData) : string := "http://" +:+ ip_str ip.

(** [Config.AppEnvType]: the checker only asks whether the mode is [TEST]. *)
Inductive AppEnvType := TEST | OTHER_ENV.

Global Instance AppEnvType_eq_dec : EqDecision AppEnvType.
Proof. solve_decision. Defined.

(** The options of [Config] ([src/app/main.py]) that the checker reads.
    Their values are not part of this file; durations are in seconds. *)
Record Config := {
  APP_ENV : AppEnvType;
  COROUTINE_COUNT_IP_CHECK : nat;
  DEFAULT_REQUEST_CHECK_TIME_OUT : Z;
  DEFAULT_CHECK_INTERVAL : Z;
  DEFAULT_CHECK_CLEAN_IP_INTERVAL : Z;
  DEFAULT_MINI_SCORE : Z;
  DEFAULT_MAX_SCORE : Z;
  DEFAULT_INC_SCORE : Z;
  RE_PUSH_TO_CHECK_POOL_RATE : Q;
  REDIS_KEY_CHECK_POOL : string;
  REDIS_KEY_IP_POOL : string;
  RULES : list RuleEntry;
}.

(** ** The world a coroutine runs in *)

(** What a request through the shared [aiohttp] session comes back with. *)
Record Response := {
  resp_text : exn + string;   (* [await resp.text()] *)
  resp_json : exn + JSON;     (* [await resp.json()] *)
}.

Inductive Fetch :=
| FetchFail (e : exn)         (* timeout, refused connection, broken proxy *)
| FetchResp (resp : Response).

Record Reply := {
  elapsed : Z;                (* wall-clock microseconds the request took *)
  outcome : Fetch;
}.

(** The data held by the Redis server: lists, sorted sets (members with
    their scores, in the order of the set) and the last-run stamps. *)
Record RedisData := {
  lists : gmap string (list string);
  zsets : gmap string (list (string * Z));
  stamps : gmap string Z;
}.

Inductive level := DEBUG | INFO | ERROR.

Inductive event :=
| Log (lv : level) (msg : string)
| Sleep (seconds : Z)
| CounterInc (name : string) (n : Z).

Record World := {
  clock : Z;                                  (* wall clock, microseconds *)
  requests : nat;                             (* requests issued so far *)
  net : nat → string → string → Reply;        (* answer to the n-th request, by url and proxy *)
  redis_up : bool;                            (* whether the server can be reached *)
  redis : RedisData;
  trace : list event;
}.

Definition with_redis (r : RedisData) (w : World) : World :=
  {| clock := clock w; requests := requests w; net := net w;
     redis_up := redis_up w; redis := r; trace := trace w |}.

Definition with_trace (t : list event) (w : World) : World :=
  {| clock := clock w; requests := requests w; net := net w;
     redis_up := redis_up w; redis := redis w; trace := t |}.

Definition with_clock (t : Z) (w : World) : World :=
  {| clock := t; requests := requests w; net := net w;
     redis_up := redis_up w; redis := redis w; trace := trace w |}.

Definition with_requests (n : nat) (w : World) : World :=
  {| clock := clock w; requests := n; net := net w;
     redis_up := redis_up w; redis := redis w; trace := trace w |}.

Definition with_net (f : nat → string → string → Reply) (w : World) : World :=
  {| clock := clock w; requests := requests w; net := f;
     redis_up := redis_up w; redis := redis w; trace := trace w |}.

(** ** The coroutine monad *)

Inductive res (A : Type) :=
| Ok (a : A)
| Raise (e : exn)
| Blocked.
Arguments Ok {A} a.
Arguments Raise {A} e.
Arguments Blocked {A}.

Definition M (A : Type) : Type := World → res A * World.

Global Instance M_ret : MRet M := λ A a w, (Ok a, w).

Global Instance M_bind : MBind M := λ A B f m w,
  match m w with
  | (Ok a, w') => f a w'
  | (Raise e, w') => (Raise e, w')
  | (Blocked, w') => (Blocked, w')
  end.

Definition raise {A} (e : exn) : M A := λ w, (Raise e, w).

Definition block {A} : M A := λ w, (Blocked, w).

(** [try: body / except Exception as e: handler(e)] *)
Definition try_except {A} (body : M A) (handler : exn → M A) : M A := λ w,
  match body w with
  | (Raise e, w') => handler e w'
  | r => r
  end.

(** A value or exception computed without touching the world. *)
Definition lift {A} (r : exn + A) : M A :=
  match r with
  | inl e => raise e
  | inr a => mret a
  end.

Definition get_world : M World := λ w, (Ok w, w).

Definition modify (f : World → World) : M unit := λ w, (Ok (), f w).

Definition seconds (s : Z) : Z := s * 1000000.

(** [datetime.datetime.now()] *)
Definition now : M Z := λ w, (Ok (clock w), w).

(** [await asyncio.sleep(s)] *)
Definition sleep (s : Z) : M unit :=
  modify (λ w, with_trace (trace w ++ [Sleep s]) (with_clock (clock w + seconds s) w)).

Module Logger.
Definition log (lv : level) (msg : string) : M unit :=
  modify (λ w, with_trace (trace w ++ [Log lv msg]) w).
Definition debug := log DEBUG.
Definition info := log INFO.
Definition error := log ERROR.
End Logger.

Module Prometheus.
Definition inc (name : string) (n : Z) : M unit :=
  modify (λ w, with_trace (trace w ++ [CounterInc name n]) w).
End Prometheus.

(** [session.get(url, proxy=proxy)]: the network answers the request, the
    clock moves by the time it took, and a failed request raises. *)
Definition session_get (u proxy : string) : M Response := λ w,
  let r := net w (requests w) u proxy in
  let w' := with_requests (S (requests w)) (with_clock (clock w + elapsed r) w) in
  match outcome r with
  | FetchFail e => (Raise e, w')
  | FetchResp resp => (Ok resp, w')
  end.

(** [while True: body], where [body] answers whether it left the loop
    through [break].  The loop is followed for at most [fuel] iterations;
    the answer tells whether it was left within them. *)
Fixpoint while_true (fuel : nat) (body : M bool) : M bool :=
  match fuel with
  | O => mret false
  | S n => brk ← body; if (brk : bool) then mret true else while_true n body
  end.

(** ** The Redis client ([src/lib/redis_lib.py] over [aioredis]) *)

Module Redis.

Definition list_at (k : string) (r : RedisData) : list string :=
  default [] (lists r !! k).

Definition zset_at (k : string) (r : RedisData) : list (string * Z) :=
  default [] (zsets r !! k).

Definition with_list (k : string) (l : list string) (r : RedisData) : RedisData :=
  {| lists := <[k := l]> (lists r); zsets := zsets r; stamps := stamps r |}.

Definition with_zset (k : string) (z : list (string * Z)) (r : RedisData) : RedisData :=
  {| lists := lists r; zsets := <[k := z]> (zsets r); stamps := stamps r |}.

Definition with_stamp (k : string) (t : Z) (r : RedisData) : RedisData :=
  {| lists := lists r; zsets := zsets r; stamps := <[k := t]> (stamps r) |}.

(** [with await Redis.share() as redis]: a connection of the shared pool,
    or an error when the server cannot be reached. *)
Definition share : M unit := λ w,
  if redis_up w then (Ok (), w) else (Raise (RedisError "connection refused"), w).

(** [LLEN key] *)
Definition llen (k : string) : M Z := λ w,
  (Ok (Z.of_nat (length (list_at k (redis w)))), w).

(** [ZCOUNT key -inf +inf] *)
Definition zcount (k : string) : M Z := λ w,
  (Ok (Z.of_nat (length (zset_at k (redis w)))), w).

(** [ZRANGEBYSCORE key lo hi]: the members whose score is in [lo, hi], both
    ends included, in the order of the set. *)
Definition zrangebyscore (k : string) (lo hi : Z) : M (list string) := λ w,
  (Ok (filter (λ ms, lo ≤ ms.2 ≤ hi) (zset_at k (redis w))).*1, w).

(** [RPUSH key v1 ... vn]: appends at the tail, answers the new length. *)
Definition rpush (k : string) (vals : list string) : M Z := λ w,
  let l := list_at k (redis w) ++ vals in
  (Ok (Z.of_nat (length l)), with_redis (with_list k l (redis w)) w).

(** [BLPOP key 0]: takes the head of the list, waiting for one without a
    time limit. *)
Definition blpop (k : string) : M (string * string) := λ w,
  match list_at k (redis w) with
  | [] => (Blocked, w)
  | v :: l => (Ok (k, v), with_redis (with_list k l (redis w)) w)
  end.

(** [ZREM key m1 ... mn] *)
Definition zrem (k : string) (members : list string) : M unit := λ w,
  (Ok (), with_redis (with_zset k (filter (λ ms, ms.1 ∉ members) (zset_at k (redis w)))
                                (redis w)) w).

(** Modelled from the spec: [Redis.last_time_check] and
    [Redis.save_last_time] are in [src/lib/redis_lib.py].  The guard checks a
    shared last-run stamp under the key: a run was recorded within the
    interval when the stamp is younger than the interval. *)
Definition last_time_check (k : string) (interval : Z) : M bool :=
  share;;
  w ← get_world;
  mret (match stamps (redis w) !! k with
        | Some t => bool_decide (clock w - t < seconds interval)
        | None => false
        end).

(** Modelled from the spec: stamps the time of this run under the key. *)
Definition save_last_time (k : string) : M unit :=
  share;;
  modify (λ w, with_redis (with_stamp k (clock w) (redis w)) w).

End Redis.

(** ** The score ledger ([src/app/ip_saver.py]) *)

Module IPSaver.

(** Modelled from the spec: [IPSaver.remove_ip] is in [src/app/ip_saver.py].
    [remove(list(Endpoint))] deletes the entries from the verified pool. *)
Definition remove_ip (cfg : Config) (ips : list string) : M unit :=
  Redis.share;;
  Redis.zrem (REDIS_KEY_IP_POOL cfg) ips.

End IPSaver.

(** ** The checker *)

Definition str_bool (b : bool) : string := if b then "True" else "False".

Definition str_outcome (o : option bool) : string :=
  match o with
  | Some b => str_bool b
  | None => "None"
  end.

Module IPChecker.

Definition NORMAL_CHECK_URL : string := "http://httpbin.org/get".

Section checker.

Context (cfg : Config).

(** [IPSaver().save_ip], the persistence operation of the score ledger: its
    score policy is not part of this file. *)
Context (save_ip : IPData → M unit).

Definition handle_task_exception (e : exn) : M unit :=
  Logger.error ("[error] " +:+ str_exn e);;
  sleep 5.

Definition http_check (ip : IPData) : M IPData :=
  time_spend ← now;
  try_except
    (resp ← session_get NORMAL_CHECK_URL (to_http ip);
     result ← lift (resp_json resp);
     origin ← lift (Py.get result "origin");
     if negb (Py.truthy origin) then raise ValidationFailException
     else
       t ← now;
       mret (set_http true (set_delay (t - time_spend) ip)))
    (λ _, mret (set_http false ip)).

Definition https_check (ip : IPData) : M IPData :=
  try_except
    (resp ← session_get (Py.replace1 "http" "https" NORMAL_CHECK_URL) (to_http ip);
     result ← lift (resp_json resp);
     origin ← lift (Py.get result "origin");
     if negb (Py.truthy origin) then raise ValidationFailException
     else mret (set_https true ip))
    (λ _, mret (set_https false ip)).

(** The body of [for rule in Config.RULES], with the local dict [rules]
    threaded through the iterations. *)
Fixpoint rules_loop (ip : IPData) (entries : list RuleEntry)
    (rules : gmap string bool) : M (gmap string bool) :=
  match entries with
  | [] => mret rules
  | entry :: rest =>
      match entry with
      | NotRuleData _ => raise (AssertionError "Error rule format")
      | IsRuleData rule =>
          if negb (enable rule) then rules_loop ip rest rules
          else
            rules' ← try_except
              (resp ← session_get (url rule) (to_http ip);
               result ← lift (resp_text resp);
               if Py.truthy_str (contains rule)
                  && (Py.find result (default "" (contains rule)) <? 0)
               then raise ValidationFailException
               else mret (<[key rule := true]> rules))
              (λ _, mret (<[key rule := false]> rules));
            rules_loop ip rest rules'
      end
  end.

Definition rules_check (ip : IPData) : M IPData :=
  rules ← rules_loop ip (RULES cfg) ∅;
  mret (set_rules rules ip).

Definition start_check : M unit :=
  Redis.share;;
  item ← Redis.blpop (REDIS_KEY_CHECK_POOL cfg);
  let ip_str := item.2 in
  Logger.info ("[check] got ip " +:+ ip_str);;
  Prometheus.inc "IP_CHECK_TOTAL" 1;;
  let ip := with_str ip_str in
  ip ← http_check ip;
  ip ← https_check ip;
  ip ← rules_check ip;
  Logger.info ("[check] Check result " +:+ to_str ip +:+
               " http " +:+ str_outcome (http ip) +:+
               " https " +:+ str_outcome (https ip) +:+ " " +:+
               String.concat " " ((λ kr, kr.1 +:+ " " +:+ str_bool kr.2)
                                    <$> map_to_list (rules ip)));;
  save_ip ip.

Definition check_task_body : M bool :=
  Logger.debug "[check] check task loop";;
  try_except start_check handle_task_exception;;
  if decide (APP_ENV cfg = TEST) then mret true else mret false.

Definition check_task (fuel : nat) : M bool :=
  while_true fuel check_task_body.

Definition remove_low_score_ip : M unit :=
  Redis.share;;
  ips ← Redis.zrangebyscore (REDIS_KEY_IP_POOL cfg) (-100) 0;
  let needs_remove := if (0 <? length ips)%nat then ips else [] in
  match needs_remove with
  | [] => mret ()
  | _ =>
      IPSaver.remove_ip cfg ips;;
      Logger.info ("[check] remove ip " +:+ String.concat "," ips)
  end.

Definition check_low_score_task_body : M bool :=
  Logger.debug "[check] check low score task loop";;
  try_except remove_low_score_ip handle_task_exception;;
  if decide (APP_ENV cfg = TEST) then mret true
  else sleep (DEFAULT_CHECK_CLEAN_IP_INTERVAL cfg);; mret false.

Definition check_low_score_task (fuel : nat) : M bool :=
  while_true fuel check_low_score_task_body.

Definition push_to_pool (ips : list string) : M Z :=
  Redis.share;;
  Redis.rpush (REDIS_KEY_CHECK_POOL cfg) ips;;
  Logger.info ("[check] send " +:+ pretty (length ips) +:+ " ip to check pools");;
  mret (Z.of_nat (length ips)).

(** The body of the loop over the bands, for the starts [i] that
    [range] gives. *)
Fixpoint resend_bands (starts : list Z) : M unit :=
  match starts with
  | [] => mret ()
  | i :: rest =>
      let end_score := i + DEFAULT_INC_SCORE cfg - 1 in
      ips ← Redis.zrangebyscore (REDIS_KEY_IP_POOL cfg) i end_score;
      let needs_check := ips in
      match needs_check with
      | [] => mret ()
      | _ => push_to_pool needs_check;; mret ()
      end;;
      resend_bands rest
  end.

Definition resend_check_ip : M unit :=
  Redis.share;;
  check_pool_len ← Redis.llen (REDIS_KEY_CHECK_POOL cfg);
  ip_pool_len ← Redis.zcount (REDIS_KEY_IP_POOL cfg);
  if Qle_bool (inject_Z ip_pool_len * RE_PUSH_TO_CHECK_POOL_RATE cfg)
              (inject_Z check_pool_len)
  then mret ()
  else
    starts ← lift (Py.range (DEFAULT_MINI_SCORE cfg + 1)
                            (DEFAULT_MAX_SCORE cfg + DEFAULT_INC_SCORE cfg)
                            (DEFAULT_INC_SCORE cfg));
    resend_bands starts.

(** The body of the [try] of [recheck_ip_task]. *)
Definition recheck_ip_try : M unit :=
  let key := "recheck_ip" in
  seen ← Redis.last_time_check key (DEFAULT_CHECK_INTERVAL cfg);
  if negb seen then
    Redis.save_last_time key;;
    resend_check_ip
  else mret ().

Definition recheck_ip_task_body : M bool :=
  Logger.debug "[check] recheck ip task loop";;
  try_except recheck_ip_try handle_task_exception;;
  if decide (APP_ENV cfg = TEST) then mret true
  else sleep (DEFAULT_CHECK_INTERVAL cfg);; mret false.

Definition recheck_ip_task (fuel : nat) : M bool :=
  while_true fuel recheck_ip_task_body.

(** One pass of the validation pipeline, as [start_check] sequences it. *)
Definition validate (ip : IPData) : M IPData :=
  ip ← http_check ip;
  ip ← https_check ip;
  rules_check ip.

End checker.

End IPChecker.

(** ** Vocabulary of the properties *)

Import IPChecker.

(** The URL of the HTTPS stage. *)
Definition HTTPS_CHECK_URL : string := Py.replace1 "http" "https" NORMAL_CHECK_URL.

(** The answers of the network to the request of the HTTP stage and to the
    request of an HTTPS stage that follows it. *)
Definition http_reply (ip : IPData) (w : World) : Reply :=
  net w (requests w) NORMAL_CHECK_URL (to_http ip).

Definition https_reply (ip : IPData) (w : World) : Reply :=
  net w (requests w) HTTPS_CHECK_URL (to_http ip).

(** The echo response is parseable and contains the origin field. *)
Definition has_origin_field (r : Reply) : Prop :=
  ∃ resp fields v,
    outcome r = FetchResp resp ∧ resp_json resp = inr (JObj fields) ∧
    Py.field "origin" fields = Some v.

(** The echo response is parseable and its origin field holds a value that
    Python counts as true: not [null], [false], [0] or an empty string, list
    or object. *)
Definition has_true_origin (r : Reply) : Prop :=
  ∃ resp fields v,
    outcome r = FetchResp resp ∧ resp_json resp = inr (JObj fields) ∧
    Py.field "origin" fields = Some v ∧ Py.truthy v = true.

(** The test both echo stages apply to a reply. *)
Definition echo_ok (r : Reply) : bool :=
  match outcome r with
  | FetchResp resp =>
      match resp_json resp with
      | inr result =>
          match Py.get result "origin" with
          | inr v => Py.truthy v
          | inl _ => false
          end
      | inl _ => false
      end
  | FetchFail _ => false
  end.

(** The world after one request that took the time of reply [r]. *)
Definition after_request (r : Reply) (w : World) : World :=
  with_requests (S (requests w)) (with_clock (clock w + elapsed r) w).

(** The HTTP stage sets [http] to true exactly when the echo response is
    parseable and contains the origin field. *)
Definition http_true_iff_origin_present : Prop :=
  ∀ ip w ip' w',
    http_check ip w = (Ok ip', w') →
    (http ip' = Some true ↔ has_origin_field (http_reply ip w)).

(** [sub] occurs in [body], at some offset. *)
Definition occurs_in (sub body : string) : Prop :=
  ∃ m, String.substring m (String.length sub) body = sub.

(** The probe of a rule passes: the request completes with a body and, when
    the rule has a substring, the body contains it. *)
Definition rule_passes (rule : RuleData) (r : Reply) : Prop :=
  ∃ resp body,
    outcome r = FetchResp resp ∧ resp_text resp = inr body ∧
    ∀ sub, contains rule = Some sub → occurs_in sub body.

(** The probe of a rule fails in the request itself. *)
Definition probe_fails (r : Reply) : Prop :=
  (∃ e, outcome r = FetchFail e) ∨
  (∃ resp e, outcome r = FetchResp resp ∧ resp_text resp = inl e).

(** The test the rule stage applies to the reply of a rule's probe. *)
Definition rule_ok (rule : RuleData) (r : Reply) : bool :=
  match outcome r with
  | FetchResp resp =>
      match resp_text resp with
      | inr body =>
          negb (Py.truthy_str (contains rule)
                && (Py.find body (default "" (contains rule)) <? 0))
      | inl _ => false
      end
  | FetchFail _ => false
  end.

Definition is_rule_data (entry : RuleEntry) : Prop :=
  match entry with
  | IsRuleData _ => True
  | NotRuleData _ => False
  end.

Global Instance is_rule_data_dec entry : Decision (is_rule_data entry).
Proof. destruct entry; simpl; apply _. Defined.

(** The enabled rules of a rule list, in its order. *)
Fixpoint enabled_rules (entries : list RuleEntry) : list RuleData :=
  match entries with
  | [] => []
  | IsRuleData rule :: rest =>
      if enable rule then rule :: enabled_rules rest else enabled_rules rest
  | NotRuleData _ :: rest => enabled_rules rest
  end.

(** The number of the request that probes the rule at position [i]: one
    request is issued for each enabled rule before it. *)
Definition probe_index (w : World) (entries : list RuleEntry) (i : nat) : nat :=
  (requests w + length (enabled_rules (take i entries)))%nat.

Definition probe_reply (ip : IPData) (w : World) (entries : list RuleEntry)
    (i : nat) (rule : RuleData) : Reply :=
  net w (probe_index w entries i) (url rule) (to_http ip).

(** No enabled rule after position [i] has the key [k]. *)
Definition last_with_key (entries : list RuleEntry) (i : nat) (k : string) : Prop :=
  ∀ j rule', (i < j)%nat → entries !! j = Some (IsRuleData rule') →
             enable rule' = true → key rule' ≠ k.

(** The rule-results dict the loop builds from [acc], when request [n] is
    the next one. *)
Fixpoint rules_result (nt : nat → string → string → Reply) (proxy : string)
    (n : nat) (entries : list RuleEntry) (acc : gmap string bool) : gmap string bool :=
  match entries with
  | [] => acc
  | IsRuleData rule :: rest =>
      if enable rule
      then rules_result nt proxy (S n) rest
             (<[key rule := rule_ok rule (nt n (url rule) proxy)]> acc)
      else rules_result nt proxy n rest acc
  | NotRuleData _ :: rest => acc
  end.

(** One pass of the pipeline never raises and leaves every outcome a
    boolean, whatever the rule list holds. *)
Definition validate_never_raises : Prop :=
  ∀ cfg ip w, ∃ ip' w',
    validate cfg ip w = (Ok ip', w') ∧
    is_Some (http ip') ∧ is_Some (https ip') ∧
    ∀ rule, rule ∈ enabled_rules (RULES cfg) → is_Some (rules ip' !! key rule).

(** The result recorded for every enabled rule is that of its own probe. *)
Definition every_rule_result_is_own_probe : Prop :=
  ∀ cfg ip w i rule,
    Forall is_rule_data (RULES cfg) →
    RULES cfg !! i = Some (IsRuleData rule) → enable rule = true →
    ∃ ip' w',
      rules_check cfg ip w = (Ok ip', w') ∧
      (rules ip' !! key rule = Some true
       ↔ rule_passes rule (probe_reply ip w (RULES cfg) i rule)).

(** The pending queue and the verified pool of a world. *)
Definition pending_queue (cfg : Config) (w : World) : list string :=
  Redis.list_at (REDIS_KEY_CHECK_POOL cfg) (redis w).

Definition verified_pool (cfg : Config) (w : World) : list (string * Z) :=
  Redis.zset_at (REDIS_KEY_IP_POOL cfg) (redis w).

(** A sorted set holds each member once. *)
Definition pool_wf (pool : list (string * Z)) : Prop := NoDup pool.*1.

(** The members of the pool whose score is in [lo, hi]. *)
Definition in_band (pool : list (string * Z)) (lo hi : Z) : list string :=
  (filter (λ ms, lo ≤ ms.2 ≤ hi) pool).*1.

(** The [k]-th band of the rebalancer. *)
Definition band_lo (cfg : Config) (k : nat) : Z :=
  DEFAULT_MINI_SCORE cfg + 1 + Z.of_nat k * DEFAULT_INC_SCORE cfg.

Definition band_hi (cfg : Config) (k : nat) : Z :=
  DEFAULT_MINI_SCORE cfg + (Z.of_nat k + 1) * DEFAULT_INC_SCORE cfg.

(** How often [e] occurs in a list of endpoints. *)
Definition occurrences (e : string) (l : list string) : nat :=
  length (filter (λ x, x = e) l).

(** The backpressure guard holds: the queue is at least as long as the pool
    size times the ratio. *)
Definition backpressure (cfg : Config) (w : World) : Prop :=
  (inject_Z (Z.of_nat (length (verified_pool cfg w))) * RE_PUSH_TO_CHECK_POOL_RATE cfg
   <= inject_Z (Z.of_nat (length (pending_queue cfg w))))%Q.

(** A run of the rebalancer is recorded within the interval. *)
Definition run_recorded (cfg : Config) (w : World) : Prop :=
  ∃ t, stamps (redis w) !! "recheck_ip" = Some t ∧
       clock w - t < seconds (DEFAULT_CHECK_INTERVAL cfg).

(** The trace a caught error leaves: the log line and the backoff. *)
Definition backoff (e : exn) : list event :=
  [Log ERROR ("[error] " +:+ str_exn e); Sleep 5].

(** The first two stages of a pass, as [start_check] sequences them. *)
Definition echo_stages (ip : IPData) : M IPData :=
  ip ← http_check ip;
  https_check ip.

(** ** Sample worlds *)

Definition empty_redis : RedisData :=
  {| lists := ∅; zsets := ∅; stamps := ∅ |}.

(** A world whose network gives every request the same reply. *)
Definition world_of (r : Reply) : World :=
  {| clock := 0; requests := 0; net := λ _ _ _, r; redis_up := true;
     redis := empty_redis; trace := [] |}.

Definition json_reply (doc : JSON) : Reply :=
  {| elapsed := 250000;
     outcome := FetchResp {| resp_text := inr ""; resp_json := inr doc |} |}.

Definition text_reply (body : string) : Reply :=
  {| elapsed := 250000;
     outcome := FetchResp {| resp_text := inr body;
                             resp_json := inl (DecodeError "not a JSON document") |} |}.

Definition timeout_reply : Reply :=
  {| elapsed := 5000000; outcome := FetchFail TimeoutError |}.

(** The echo service answers with the origin, or the request times out. *)
Definition echo_reply (ok : bool) : Reply :=
  if ok then json_reply (JObj [("origin", JStr "203.0.113.7")]) else timeout_reply.

(** A world in which the HTTP echo request succeeds iff [a] and the HTTPS
    echo request succeeds iff [b]. *)
Definition echo_world (a b : bool) : World :=
  with_net (λ _ u _, if decide (u = NORMAL_CHECK_URL) then echo_reply a else echo_reply b)
           (world_of timeout_reply).

Definition sample_ip : IPData := with_str "198.51.100.4:8080".

Definition sample_config (entries : list RuleEntry) : Config :=
  {| APP_ENV := TEST;
     COROUTINE_COUNT_IP_CHECK := 1;
     DEFAULT_REQUEST_CHECK_TIME_OUT := 5;
     DEFAULT_CHECK_INTERVAL := 60;
     DEFAULT_CHECK_CLEAN_IP_INTERVAL := 60;
     DEFAULT_MINI_SCORE := 0;
     DEFAULT_MAX_SCORE := 100;
     DEFAULT_INC_SCORE := 10;
     RE_PUSH_TO_CHECK_POOL_RATE := 1%Q;
     REDIS_KEY_CHECK_POOL := "ip_check_pool";
     REDIS_KEY_IP_POOL := "ip_pool";
     RULES := entries |}.

Definition hello_rule : RuleData :=
  {| key := "hello"; url := "http://example.org/"; contains := Some "hello";
     enable := true |}.

Definition hello_config : Config := sample_config [IsRuleData hello_rule].

(** Two enabled rules under one key: the probe of the first one times out,
    the probe of the second one completes. *)
Definition first_rule : RuleData :=
  {| key := "site"; url := "http://first.example/"; contains := None;
     enable := true |}.

Definition second_rule : RuleData :=
  {| key := "site"; url := "http://second.example/"; contains := None;
     enable := true |}.

Definition shared_key_config : Config :=
  sample_config [IsRuleData first_rule; IsRuleData second_rule].

Definition shared_key_world : World :=
  with_net (λ _ u _, if decide (u = url first_rule) then timeout_reply
                     else text_reply "welcome")
           (world_of timeout_reply).

(** A rule list with an entry that is not a [RuleData]. *)
Definition malformed_config : Config :=
  sample_config [NotRuleData "{'key': 'site', 'url': 'http://first.example/'}"].

(** The world after a log line, and after the handler of the loops has
    dealt with [e]. *)
Definition logged (lv : level) (msg : string) (w : World) : World :=
  with_trace (trace w ++ [Log lv msg]) w.

Definition backed_off (e : exn) (w : World) : World :=
  with_trace (trace w ++ backoff e) (with_clock (clock w + seconds 5) w).

Definition with_redis_up (up : bool) (w : World) : World :=
  {| clock := clock w; requests := requests w; net := net w;
     redis_up := up; redis := redis w; trace := trace w |}.

(** A world whose Redis server cannot be reached. *)
Definition redis_down_world : World :=
  with_redis_up false (world_of timeout_reply).

(** A ledger whose persistence operation only returns. *)
Definition no_ledger (ip : IPData) : M unit := mret ().

(** A world with the given pending queue and verified pool, under the keys
    of [sample_config]. *)
Definition store_world (queue : list string) (pool : list (string * Z)) : World :=
  with_redis {| lists := {["ip_check_pool" := queue]};
                zsets := {["ip_pool" := pool]};
                stamps := ∅ |}
             (world_of timeout_reply).

Definition four_scores : list (string * Z) :=
  [("10.0.0.1:80", -50); ("10.0.0.2:80", 0); ("10.0.0.3:80", 1);
   ("10.0.0.4:80", 100)].

(** The number of bands the loop of the rebalancer goes through. *)
Definition band_count (cfg : Config) : nat :=
  Z.to_nat ((DEFAULT_MAX_SCORE cfg + DEFAULT_INC_SCORE cfg
             - (DEFAULT_MINI_SCORE cfg + 1) + DEFAULT_INC_SCORE cfg - 1)
            / DEFAULT_INC_SCORE cfg).

(** The members of the pool band by band, from the lowest band up. *)
Definition band_members (cfg : Config) (pool : list (string * Z)) : list string :=
  concat ((λ k, in_band pool (band_lo cfg k) (band_hi cfg k)) <$> seq 0 (band_count cfg)).

(** The world after [save_last_time] stamped the run. *)
Definition stamped (w : World) : World :=
  with_redis (Redis.with_stamp "recheck_ip" (clock w) (redis w)) w.

(** A pending queue and a verified pool of ten endpoints each. *)
Definition ten_queue : list string :=
  (λ k : nat, "10.0.1." +:+ pretty k +:+ ":80") <$> seq 0 10.

Definition ten_pool : list (string * Z) :=
  (λ k : nat, ("10.0.2." +:+ pretty k +:+ ":80", Z.of_nat (10 * k + 5))) <$> seq 0 10.

Global Instance backpressure_dec cfg w : Decision (backpressure cfg w).
Proof.
  unfold backpressure.
  destruct (Qlt_le_dec
              (inject_Z (Z.of_nat (length (pending_queue cfg w))))
              (inject_Z (Z.of_nat (length (verified_pool cfg w)))
               * RE_PUSH_TO_CHECK_POOL_RATE cfg)) as [Hlt|Hle].
  - right. by apply Qlt_not_le.
  - by left.
Defined.

Global Instance run_recorded_dec cfg w : Decision (run_recorded cfg w).
Proof.
  unfold run_recorded.
  destruct (stamps (redis w) !! "recheck_ip") as [t|].
  - destruct (decide (clock w - t < seconds (DEFAULT_CHECK_INTERVAL cfg))).
    + left. by exists t.
    + right. intros (t' & [= <-] & Hlt). done.
  - right. by intros (t' & [=] & _).
Defined.

(** ** Further vocabulary *)

(** [sample_config] in the continuous mode. *)
Definition live_config (entries : list RuleEntry) : Config :=
  {| APP_ENV := OTHER_ENV;
     COROUTINE_COUNT_IP_CHECK := 1;
     DEFAULT_REQUEST_CHECK_TIME_OUT := 5;
     DEFAULT_CHECK_INTERVAL := 60;
     DEFAULT_CHECK_CLEAN_IP_INTERVAL := 60;
     DEFAULT_MINI_SCORE := 0;
     DEFAULT_MAX_SCORE := 100;
     DEFAULT_INC_SCORE := 10;
     RE_PUSH_TO_CHECK_POOL_RATE := 1%Q;
     REDIS_KEY_CHECK_POOL := "ip_check_pool";
     REDIS_KEY_IP_POOL := "ip_pool";
     RULES := entries |}.

(** A persistence operation that returns and leaves the pending queue and
    the reachability of the store as they are. *)
Definition ledger_keeps_queue (cfg : Config) (save_ip : IPData → M unit) : Prop :=
  ∀ ip w, ∃ w',
    save_ip ip w = (Ok (), w') ∧
    redis_up w' = redis_up w ∧
    pending_queue cfg w' = pending_queue cfg w.

(** The durations of the sleeps of a trace, in order. *)
Definition sleeps (t : list event) : list Z :=
  omap (λ ev, match ev with Sleep s => Some s | _ => None end) t.

(** The upper end of the last band of the rebalancer. *)
Definition band_top (cfg : Config) : Z :=
  DEFAULT_MINI_SCORE cfg + Z.of_nat (band_count cfg) * DEFAULT_INC_SCORE cfg.

(** The log line of [push_to_pool] for [n] endpoints. *)
Definition send_line (n : nat) : event :=
  Log INFO ("[check] send " +:+ pretty n +:+ " ip to check pools").

(** The log line of the sweeper for the endpoints it removed. *)
Definition remove_line (ips : list string) : event :=
  Log INFO ("[check] remove ip " +:+ String.concat "," ips).

(** The first two lines [start_check] leaves for the endpoint it popped. *)
Definition popped_lines (v : string) : list event :=
  [Log INFO ("[check] got ip " +:+ v); CounterInc "IP_CHECK_TOTAL" 1].

(** The line [start_check] logs for the entry a pass returned. *)
Definition result_line (ip : IPData) : string :=
  "[check] Check result " +:+ to_str ip +:+
  " http " +:+ str_outcome (http ip) +:+
  " https " +:+ str_outcome (https ip) +:+ " " +:+
  String.concat " " ((λ kr, kr.1 +:+ " " +:+ str_bool kr.2) <$> map_to_list (rules ip)).

(** The world in which [start_check] starts the pass for the endpoint it
    popped: the queue is left with [rest], the endpoint is logged and
    counted. *)
Definition popped (cfg : Config) (v : string) (rest : list string) (w : World) : World :=
  with_trace ((trace w ++ [Log INFO ("[check] got ip " +:+ v)])
              ++ [CounterInc "IP_CHECK_TOTAL" 1])
    (with_redis (Redis.with_list (REDIS_KEY_CHECK_POOL cfg) rest (redis w)) w).

(** The world the sweeper leaves when the store can be reached: nothing
    changes when no score is in the range; otherwise the members in the
    range are removed and one line is logged. *)
Definition swept (cfg : Config) (w : World) : World :=
  match in_band (verified_pool cfg w) (-100) 0 with
  | [] => w
  | ips =>
      with_trace (trace w ++ [remove_line ips])
        (with_redis
           (Redis.with_zset (REDIS_KEY_IP_POOL cfg)
              (filter (λ ms, ms.1 ∉ ips) (verified_pool cfg w)) (redis w)) w)
  end.

(** [sample_config] with another step of the bands. *)
Definition step_config (inc : Z) : Config :=
  {| APP_ENV := TEST;
     COROUTINE_COUNT_IP_CHECK := 1;
     DEFAULT_REQUEST_CHECK_TIME_OUT := 5;
     DEFAULT_CHECK_INTERVAL := 60;
     DEFAULT_CHECK_CLEAN_IP_INTERVAL := 60;
     DEFAULT_MINI_SCORE := 0;
     DEFAULT_MAX_SCORE := 100;
     DEFAULT_INC_SCORE := inc;
     RE_PUSH_TO_CHECK_POOL_RATE := 1%Q;
     REDIS_KEY_CHECK_POOL := "ip_check_pool";
     REDIS_KEY_IP_POOL := "ip_pool";
     RULES := [] |}.

(** The log line of a band: none for an empty band. *)
Definition band_line (ips : list string) : option event :=
  match ips with
  | [] => None
  | _ => Some (send_line (length ips))
  end.

(** The log lines of a cycle of the rebalancer over the pool, band by
    band. *)
Definition band_lines (cfg : Config) (pool : list (string * Z)) : list event :=
  omap (λ k, band_line (in_band pool (band_lo cfg k) (band_hi cfg k)))
       (seq 0 (band_count cfg)).

(** * Properties *)

(** ** The Python helpers on small inputs *)

Example https_check_url : HTTPS_CHECK_URL = "https://httpbin.org/get".
Proof. reflexivity. Qed.

Example range_of_default_bands :
  Py.range 1 110 10 = inr [1; 11; 21; 31; 41; 51; 61; 71; 81; 91; 101].
Proof. reflexivity. Qed.

Example range_downwards : Py.range 10 0 (-3) = inr [10; 7; 4; 1].
Proof. reflexivity. Qed.

Example range_zero_step :
  Py.range 1 110 0 = inl (ValueError "range() arg 3 must not be zero").
Proof. reflexivity. Qed.

Example find_present : Py.find "hello world" "world" = 6.
Proof. reflexivity. Qed.

Example find_absent : Py.find "goodbye" "hello" = -1.
Proof. reflexivity. Qed.

Example get_last_duplicate :
  Py.get (JObj [("origin", JStr ""); ("origin", JStr "203.0.113.7")]) "origin"
  = inr (JStr "203.0.113.7").
Proof. reflexivity. Qed.

Example get_of_list_raises :
  Py.get (JArr []) "origin" = inl (AttributeError "object has no attribute 'get'").
Proof. reflexivity. Qed.

(** With the bounds 0 and 100 and the step 10 the loop goes through eleven
    bands: the last one, 101..110, lies above the maximum. *)
Example band_count_default : band_count (sample_config []) = 11%nat.
Proof. reflexivity. Qed.

(** ** Running the monad *)

Lemma bind_run {A B} (m : M A) (f : A → M B) (w : World) :
  (m ≫= f) w =
  match m w with
  | (Ok a, w') => f a w'
  | (Raise e, w') => (Raise e, w')
  | (Blocked, w') => (Blocked, w')
  end.
Proof. reflexivity. Qed.

Lemma try_except_run {A} (body : M A) (handler : exn → M A) (w : World) :
  try_except body handler w =
  match body w with
  | (Raise e, w') => handler e w'
  | r => r
  end.
Proof. reflexivity. Qed.

(** An echo request followed by the test of the reply, as both echo stages
    run it inside their [try]. *)
Lemma echo_probe_run {A} (u proxy : string) (k : M A) (w : World) :
  let r := net w (requests w) u proxy in
  (resp ← session_get u proxy;
   result ← lift (resp_json resp);
   origin ← lift (Py.get result "origin");
   if negb (Py.truthy origin) then raise ValidationFailException else k) w =
  if echo_ok r then k (after_request r w)
  else (match outcome r with
        | FetchFail e => Raise e
        | FetchResp resp =>
            match resp_json resp with
            | inl e => Raise e
            | inr result =>
                match Py.get result "origin" with
                | inl e => Raise e
                | inr _ => Raise ValidationFailException
                end
            end
        end, after_request r w).
Proof.
  intros r. unfold echo_ok. rewrite bind_run. unfold session_get. fold r.
  fold (after_request r w).
  destruct (outcome r) as [e|resp]; [done|].
  rewrite bind_run. destruct (resp_json resp) as [e|result]; [done|]. simpl.
  rewrite bind_run. destruct (Py.get result "origin") as [e|v]; [done|]. simpl.
  by destruct (Py.truthy v).
Qed.

Lemma http_check_run (ip : IPData) (w : World) :
  let r := http_reply ip w in
  http_check ip w =
  (Ok (if echo_ok r then set_http true (set_delay (elapsed r) ip)
       else set_http false ip),
   after_request r w).
Proof.
  intros r. unfold http_check. rewrite bind_run. simpl.
  rewrite try_except_run, echo_probe_run. fold (http_reply ip w). fold r.
  destruct (echo_ok r).
  - simpl. by replace (clock w + elapsed r - clock w) with (elapsed r) by lia.
  - by destruct (outcome r) as [e|resp];
      [|destruct (resp_json resp) as [e|res];
        [|destruct (Py.get res "origin")]].
Qed.

Lemma https_check_run (ip : IPData) (w : World) :
  let r := https_reply ip w in
  https_check ip w =
  (Ok (set_https (echo_ok r) ip), after_request r w).
Proof.
  intros r. unfold https_check.
  rewrite try_except_run, echo_probe_run. fold HTTPS_CHECK_URL.
  fold (https_reply ip w). fold r.
  destruct (echo_ok r); [done|].
  by destruct (outcome r) as [e|resp];
    [|destruct (resp_json resp) as [e|res];
      [|destruct (Py.get res "origin")]].
Qed.

Lemma echo_ok_true_origin (r : Reply) : echo_ok r = true ↔ has_true_origin r.
Proof.
  unfold echo_ok, has_true_origin. split.
  - destruct (outcome r) as [e|resp] eqn:Ho; [done|].
    destruct (resp_json resp) as [e|result] eqn:Hj; [done|].
    destruct result as [| | | | |fields]; try done. simpl.
    destruct (Py.field "origin" fields) as [v|] eqn:Hf; [|done].
    simpl. intros Hv. by exists resp, fields, v.
  - intros (resp & fields & v & -> & -> & Hf & Hv). simpl. by rewrite Hf.
Qed.

Lemma echo_stages_run (ip : IPData) (w : World) :
  let r1 := http_reply ip w in
  let r2 := net w (S (requests w)) HTTPS_CHECK_URL (to_http ip) in
  ∃ ip' w',
    echo_stages ip w = (Ok ip', w') ∧
    w' = after_request r2 (after_request r1 w) ∧
    ip_str ip' = ip_str ip ∧
    http ip' = Some (echo_ok r1) ∧ https ip' = Some (echo_ok r2) ∧
    delay ip' = (if echo_ok r1 then Some (elapsed r1) else delay ip) ∧
    rules ip' = rules ip.
Proof.
  intros r1 r2. unfold echo_stages. rewrite bind_run, http_check_run.
  fold r1. rewrite https_check_run.
  set (ip1 := if echo_ok r1 then _ else _).
  assert (https_reply ip1 (after_request r1 w) = r2) as ->.
  { unfold https_reply, r2, to_http, ip1. by destruct (echo_ok r1). }
  eexists _, _. split; [done|]. unfold ip1.
  by destruct (echo_ok r1).
Qed.

(** ** The HTTP stage *)

(** C7 (amended): after the HTTP stage, [http] is true iff the echo response
    is parseable and its origin field holds a true (non-empty) value; in
    exactly that case the wall-clock time the request took is recorded as
    the delay, and it is positive whenever the clock advanced; on every
    failure [http] is false and the delay is left as it was.  The stage
    always returns, and the pass goes on with the HTTPS stage. *)
Theorem http_check_outcome (ip : IPData) (w : World) :
  ∃ ip' w',
    http_check ip w = (Ok ip', w') ∧
    (http ip' = Some true ↔ has_true_origin (http_reply ip w)) ∧
    (http ip' = Some true →
       delay ip' = Some (clock w' - clock w) ∧
       (clock w < clock w' → ∃ d, delay ip' = Some d ∧ 0 < d)) ∧
    (http ip' ≠ Some true → http ip' = Some false ∧ delay ip' = delay ip) ∧
    (∀ cfg, validate cfg ip w = (ip2 ← https_check ip'; rules_check cfg ip2) w').
Proof.
  eexists _, _. split; [apply http_check_run|].
  pose proof (echo_ok_true_origin (http_reply ip w)) as Hok.
  destruct (echo_ok (http_reply ip w)) eqn:E; simpl.
  - split; [split; [intros _; by apply Hok|done]|]. split; [|split; [done|]].
    + intros _.
      replace (clock w + elapsed (http_reply ip w) - clock w)
        with (elapsed (http_reply ip w)) by lia.
      split; [done|]. intros Hlt. eexists. split; [done|]. lia.
    + intros cfg. unfold validate. by rewrite bind_run, http_check_run, E.
  - split; [split; [done|]; intros H; apply Hok in H; done|].
    split; [done|]. split; [done|].
    intros cfg. unfold validate. by rewrite bind_run, http_check_run, E.
Qed.

(** C7, as stated, fails: an echo response that is parseable and contains
    the origin field, with an empty value, leaves [http] false. *)
Lemma http_origin_present_but_empty : ¬ http_true_iff_origin_present.
Proof.
  intros H.
  set (w := world_of (json_reply (JObj [("origin", JStr "")]))).
  destruct (H sample_ip w _ _ (http_check_run sample_ip w)) as [_ Hpresent].
  assert (has_origin_field (http_reply sample_ip w)) as Hf.
  { eexists _, _, _. repeat split; reflexivity. }
  apply Hpresent in Hf. vm_compute in Hf. discriminate.
Qed.

(** ** The HTTPS stage *)

(** C6: the HTTPS stage runs after the HTTP stage whatever its outcome, its
    result is decided by the reply to the HTTPS request alone, so two runs
    that differ in the HTTP stage only agree on it, and each of the four
    combinations of outcomes occurs. *)
Theorem https_independent_of_http :
  (∀ ip w, ∃ ip' w',
     echo_stages ip w = (Ok ip', w') ∧
     http ip' = Some (echo_ok (http_reply ip w)) ∧
     https ip' =
       Some (echo_ok (net w (S (requests w)) HTTPS_CHECK_URL (to_http ip)))) ∧
  (∀ ip w1 w2 ip1 ip2 w1' w2',
     net w1 (S (requests w1)) HTTPS_CHECK_URL (to_http ip) =
     net w2 (S (requests w2)) HTTPS_CHECK_URL (to_http ip) →
     echo_stages ip w1 = (Ok ip1, w1') →
     echo_stages ip w2 = (Ok ip2, w2') →
     https ip1 = https ip2) ∧
  (∀ a b : bool, ∃ ip w ip' w',
     echo_stages ip w = (Ok ip', w') ∧ http ip' = Some a ∧ https ip' = Some b).
Proof.
  split; [|split].
  - intros ip w.
    destruct (echo_stages_run ip w) as (ip' & w' & Hrun & _ & _ & Hh & Hs & _).
    by exists ip', w'.
  - intros ip w1 w2 ip1 ip2 w1' w2' Hnet H1 H2.
    destruct (echo_stages_run ip w1) as (? & ? & Hr1 & _ & _ & _ & Hs1 & _).
    destruct (echo_stages_run ip w2) as (? & ? & Hr2 & _ & _ & _ & Hs2 & _).
    rewrite H1 in Hr1. rewrite H2 in Hr2. simplify_eq.
    by rewrite Hs1, Hs2, Hnet.
  - intros a b.
    destruct (echo_stages_run sample_ip (echo_world a b))
      as (ip' & w' & Hrun & _ & _ & Hh & Hs & _).
    exists sample_ip, (echo_world a b), ip', w'. split; [done|].
    rewrite Hh, Hs. by destruct a, b.
Qed.

(** ** The rule stage *)

Lemma rule_probe_run (rule : RuleData) (proxy : string)
    (acc : gmap string bool) (w : World) :
  let r := net w (requests w) (url rule) proxy in
  try_except
    (resp ← session_get (url rule) proxy;
     result ← lift (resp_text resp);
     if Py.truthy_str (contains rule)
        && (Py.find result (default "" (contains rule)) <? 0)
     then raise ValidationFailException
     else mret (<[key rule := true]> acc))
    (λ _, mret (<[key rule := false]> acc)) w =
  (Ok (<[key rule := rule_ok rule r]> acc), after_request r w).
Proof.
  intros r. rewrite try_except_run, bind_run. unfold session_get, rule_ok.
  fold r. fold (after_request r w).
  destruct (outcome r) as [e|resp]; [done|].
  rewrite bind_run. destruct (resp_text resp) as [e|body]; [done|]. simpl.
  by destruct (Py.truthy_str (contains rule) && _).
Qed.

Lemma rules_loop_run (ip : IPData) (entries : list RuleEntry) :
  Forall is_rule_data entries →
  ∀ (acc : gmap string bool) (w : World), ∃ w',
    rules_loop ip entries acc w =
      (Ok (rules_result (net w) (to_http ip) (requests w) entries acc), w') ∧
    net w' = net w ∧
    requests w' = (requests w + length (enabled_rules entries))%nat ∧
    redis w' = redis w ∧ redis_up w' = redis_up w ∧ trace w' = trace w.
Proof.
  induction 1 as [|entry rest Hentry _ IH]; intros acc w.
  - exists w. simpl. repeat split; (done || lia).
  - destruct entry as [rule|]; [|done]. simpl.
    destruct (enable rule); simpl.
    + rewrite bind_run, rule_probe_run.
      set (r := net w (requests w) (url rule) (to_http ip)).
      destruct (IH (<[key rule := rule_ok rule r]> acc) (after_request r w))
        as (w' & Hrun & Hnet & Hreq & Hredis & Hup & Htrace).
      exists w'. rewrite Hrun. simpl in *. repeat split; (done || lia).
    + apply IH.
Qed.

Lemma rules_result_other nt proxy (k : string) (entries : list RuleEntry) :
  ∀ n (acc : gmap string bool),
    (∀ j rule', entries !! j = Some (IsRuleData rule') →
                enable rule' = true → key rule' ≠ k) →
    rules_result nt proxy n entries acc !! k = acc !! k.
Proof.
  induction entries as [|entry rest IH]; intros n acc Hother; [done|].
  destruct entry as [rule|]; [|done]. simpl.
  destruct (enable rule) eqn:Hen.
  - rewrite IH by (intros j rule' Hj; apply (Hother (S j) rule' Hj)).
    apply lookup_insert_ne, (Hother 0%nat rule); done.
  - apply IH. intros j rule' Hj. apply (Hother (S j) rule' Hj).
Qed.

Lemma rules_result_last nt proxy (entries : list RuleEntry) :
  Forall is_rule_data entries →
  ∀ i rule n (acc : gmap string bool),
    entries !! i = Some (IsRuleData rule) → enable rule = true →
    last_with_key entries i (key rule) →
    rules_result nt proxy n entries acc !! key rule =
    Some (rule_ok rule
            (nt (n + length (enabled_rules (take i entries)))%nat (url rule) proxy)).
Proof.
  induction 1 as [|entry rest Hentry _ IH]; intros i rule n acc Hi Hen Hlast;
    [done|].
  destruct i as [|i].
  - simpl in Hi. simplify_eq. simpl. rewrite Hen.
    rewrite rules_result_other.
    + rewrite lookup_insert_eq. do 3 f_equal. lia.
    + intros j rule' Hj. apply (Hlast (S j) rule'); [lia|done].
  - simpl in Hi. destruct entry as [r0|]; [|done].
    assert (last_with_key rest i (key rule)) as Hlast'.
    { intros j rule' Hlt Hj. apply (Hlast (S j) rule'); [lia|done]. }
    simpl. destruct (enable r0).
    + rewrite (IH i rule) by done. simpl. do 3 f_equal. lia.
    + by rewrite (IH i rule).
Qed.

Lemma rules_result_dom nt proxy (entries : list RuleEntry) :
  Forall is_rule_data entries →
  ∀ n (acc : gmap string bool),
    dom (rules_result nt proxy n entries acc) =
    dom acc ∪ (list_to_set (key <$> enabled_rules entries) : gset string).
Proof.
  induction 1 as [|entry rest Hentry _ IH]; intros n acc.
  - simpl. set_solver.
  - destruct entry as [rule|]; [|done]. simpl.
    destruct (enable rule); [|apply IH].
    rewrite IH, dom_insert_L. set_solver.
Qed.

Lemma rules_check_run (cfg : Config) (ip : IPData) (w : World) :
  Forall is_rule_data (RULES cfg) →
  ∃ w',
    rules_check cfg ip w =
      (Ok (set_rules (rules_result (net w) (to_http ip) (requests w) (RULES cfg) ∅) ip),
       w') ∧
    net w' = net w ∧
    requests w' = (requests w + length (enabled_rules (RULES cfg)))%nat ∧
    redis w' = redis w ∧ redis_up w' = redis_up w ∧ trace w' = trace w.
Proof.
  intros Hwf. unfold rules_check. rewrite bind_run.
  destruct (rules_loop_run ip (RULES cfg) Hwf ∅ w) as (w' & -> & Hrest).
  by exists w'.
Qed.

Lemma occurs_in_empty (body : string) : occurs_in "" body.
Proof. exists 0%nat. by destruct body. Qed.

Lemma find_occurs (sub body : string) :
  sub ≠ "" → (Py.find body sub <? 0) = false ↔ occurs_in sub body.
Proof.
  intros Hne. unfold Py.find, occurs_in.
  destruct (String.index 0 sub body) as [i|] eqn:Hidx.
  - split; [intros _|intros _; apply Z.ltb_ge; lia].
    exists i. by apply (String.index_correct1 0).
  - split; [done|]. intros [m Hm].
    by destruct (String.index_correct3 0 m sub body Hidx Hne ltac:(lia)).
Qed.

Lemma rule_ok_passes (rule : RuleData) (r : Reply) :
  rule_ok rule r = true ↔ rule_passes rule r.
Proof.
  unfold rule_ok, rule_passes.
  destruct (outcome r) as [e|resp] eqn:Ho;
    [split; [done|by intros (? & ? & ? & _)]|].
  destruct (resp_text resp) as [e|body] eqn:Ht;
    [split; [done|intros (? & ? & [= <-] & ? & _); congruence]|].
  destruct (contains rule) as [sub|] eqn:Hc; simpl.
  - destruct (String.eqb_spec sub "") as [->|Hne]; simpl.
    + split; [|done]. intros _. exists resp, body.
      split; [done|split; [done|]].
      intros ? [= <-]. apply occurs_in_empty.
    + rewrite negb_true_iff, (find_occurs sub body Hne). split.
      * intros Hocc. exists resp, body.
        split; [done|split; [done|]]. by intros ? [= <-].
      * intros (resp' & body' & [= <-] & Ht' & Hocc).
        rewrite Ht in Ht'. simplify_eq. by apply Hocc.
  - split; [|done]. intros _. by exists resp, body.
Qed.

Lemma rule_ok_probe_fails (rule : RuleData) (r : Reply) :
  probe_fails r → rule_ok rule r = false.
Proof.
  unfold rule_ok. by intros [[e ->]|(resp & e & -> & ->)].
Qed.

(** C8 (amended): for every enabled rule of a well-formed rule list that no
    later enabled rule shares its key with, the result of the rule stage
    under the rule's key is true if and only if the probe of the rule
    completes and, when the rule has a substring, the body contains it, and
    it is false otherwise; the result depends on the reply to the rule's
    own probe only, so what happens to the probes of other rules neither
    alters nor skips it. *)
Theorem rules_check_rule_result (cfg : Config) (ip : IPData) (w : World)
    (i : nat) (rule : RuleData) :
  Forall is_rule_data (RULES cfg) →
  RULES cfg !! i = Some (IsRuleData rule) →
  enable rule = true →
  last_with_key (RULES cfg) i (key rule) →
  ∃ ip' w',
    rules_check cfg ip w = (Ok ip', w') ∧
    (rules ip' !! key rule = Some true
     ↔ rule_passes rule (probe_reply ip w (RULES cfg) i rule)) ∧
    (rules ip' !! key rule ≠ Some true → rules ip' !! key rule = Some false) ∧
    (∀ w2, requests w2 = requests w →
           probe_reply ip w2 (RULES cfg) i rule = probe_reply ip w (RULES cfg) i rule →
           ∃ ip2 w2',
             rules_check cfg ip w2 = (Ok ip2, w2') ∧
             rules ip2 !! key rule = rules ip' !! key rule).
Proof.
  intros Hwf Hi Hen Hlast.
  destruct (rules_check_run cfg ip w Hwf) as (w' & Hrun & _).
  eexists _, w'. split; [exact Hrun|]. simpl.
  rewrite (rules_result_last _ _ _ Hwf i rule) by done.
  fold (probe_index w (RULES cfg) i). fold (probe_reply ip w (RULES cfg) i rule).
  pose proof (rule_ok_passes rule (probe_reply ip w (RULES cfg) i rule)) as Hok.
  split; [|split].
  - rewrite <- Hok. split; [by intros [= ->]|by intros ->].
  - by destruct (rule_ok rule _).
  - intros w2 Hreq Hreply.
    destruct (rules_check_run cfg ip w2 Hwf) as (w2' & Hrun2 & _).
    eexists _, w2'. split; [exact Hrun2|]. simpl.
    rewrite (rules_result_last _ _ _ Hwf i rule) by done.
    fold (probe_index w2 (RULES cfg) i).
    fold (probe_reply ip w2 (RULES cfg) i rule). by rewrite Hreply.
Qed.

(** The hypotheses of C8 hold for the rule with the substring "hello": the
    body "hello world" gives true, the body "goodbye" gives false. *)
Lemma rules_check_rule_result_hello :
  (∃ ip' w',
     rules_check hello_config sample_ip (world_of (text_reply "hello world"))
       = (Ok ip', w') ∧
     rules ip' !! "hello" = Some true) ∧
  (∃ ip' w',
     rules_check hello_config sample_ip (world_of (text_reply "goodbye"))
       = (Ok ip', w') ∧
     rules ip' !! "hello" = Some false).
Proof.
  assert (Forall is_rule_data (RULES hello_config)) as Hwf
    by (repeat constructor).
  assert (last_with_key (RULES hello_config) 0 (key hello_rule)) as Hlast
    by (intros [|[|j]] rule' Hlt Hj; [lia|done|done]).
  split.
  - destruct (rules_check_rule_result hello_config sample_ip
                (world_of (text_reply "hello world")) 0 hello_rule
                Hwf eq_refl eq_refl Hlast)
      as (ip' & w' & Hrun & Hiff & _).
    exists ip', w'. split; [exact Hrun|]. apply Hiff.
    eexists _, "hello world". split; [reflexivity|split; [reflexivity|]].
    intros sub [= <-]. by exists 0%nat.
  - destruct (rules_check_rule_result hello_config sample_ip
                (world_of (text_reply "goodbye")) 0 hello_rule
                Hwf eq_refl eq_refl Hlast)
      as (ip' & w' & Hrun & Hiff & Hfalse & _).
    exists ip', w'. split; [exact Hrun|]. apply Hfalse.
    intros Htrue. apply Hiff in Htrue.
    destruct Htrue as (resp & body & Ho & Ht & Hocc).
    injection Ho as <-. injection Ht as <-.
    specialize (Hocc "hello" eq_refl).
    apply (find_occurs "hello" "goodbye") in Hocc; done.
Defined.

(** C8, as stated, fails: when two enabled rules share a key, the result
    under the key is that of the later rule, so the first rule, whose probe
    timed out, has a true result. *)
Lemma shared_key_overwrites : ¬ every_rule_result_is_own_probe.
Proof.
  intros H.
  assert (Forall is_rule_data (RULES shared_key_config)) as Hwf
    by (repeat constructor).
  destruct (H shared_key_config sample_ip shared_key_world 0%nat first_rule
              Hwf eq_refl eq_refl) as (ip' & w' & Hrun & Hiff).
  destruct (rules_check_run shared_key_config sample_ip shared_key_world Hwf)
    as (w'' & Hrun' & _).
  rewrite Hrun in Hrun'. injection Hrun' as -> _.
  destruct Hiff as [Hpass _].
  destruct Hpass as (resp & body & Ho & _); [by vm_compute|].
  vm_compute in Ho. discriminate.
Qed.

Lemma elem_of_enabled_rules (rule : RuleData) (entries : list RuleEntry) :
  rule ∈ enabled_rules entries ↔ IsRuleData rule ∈ entries ∧ enable rule = true.
Proof.
  induction entries as [|entry rest IH]; simpl.
  - split; [by intros ?%elem_of_nil|by intros [?%elem_of_nil _]].
  - destruct entry as [r0|repr].
    + destruct (enable r0) eqn:Hen.
      * rewrite !elem_of_cons, IH. split.
        -- intros [->|[? ?]]; [by split; [left|]|by split; [right|]].
        -- intros [[[= ->]|?] ?]; [by left|by right].
      * rewrite elem_of_cons, IH. split.
        -- intros [? ?]. by split; [right|].
        -- intros [[[= ->]|?] ?]; [congruence|done].
    + rewrite elem_of_cons, IH. split.
      * intros [? ?]. by split; [right|].
      * by intros [[?|?] ?].
Qed.

(** C10: after the rule stage the rule results are rebuilt from scratch:
    their keys are exactly the keys of the enabled rules of the configured
    list, a disabled rule contributes none, and the results the entry held
    before the pass play no part. *)
Theorem rules_check_rebuilds (cfg : Config) (ip : IPData) (w : World) :
  Forall is_rule_data (RULES cfg) →
  ∃ ip' w',
    rules_check cfg ip w = (Ok ip', w') ∧
    dom (rules ip') = list_to_set (key <$> enabled_rules (RULES cfg)) ∧
    (∀ k, is_Some (rules ip' !! k)
          ↔ ∃ rule, IsRuleData rule ∈ RULES cfg ∧ enable rule = true ∧ key rule = k) ∧
    (∀ old, ∃ ip2 w2,
       rules_check cfg (set_rules old ip) w = (Ok ip2, w2) ∧
       rules ip2 = rules ip').
Proof.
  intros Hwf.
  destruct (rules_check_run cfg ip w Hwf) as (w' & Hrun & _).
  eexists _, w'. split; [exact Hrun|]. simpl.
  assert (dom (rules_result (net w) (to_http ip) (requests w) (RULES cfg) ∅)
          = (list_to_set (key <$> enabled_rules (RULES cfg)) : gset string))
    as Hdom.
  { rewrite rules_result_dom by done. rewrite dom_empty_L. set_solver. }
  split; [exact Hdom|split].
  - intros k. rewrite <- elem_of_dom, Hdom, elem_of_list_to_set.
    rewrite list_elem_of_fmap. split.
    + intros (rule & -> & Hin). apply elem_of_enabled_rules in Hin as [? ?].
      by exists rule.
    + intros (rule & Hin & Hen & <-). exists rule. split; [done|].
      by apply elem_of_enabled_rules.
  - intros old.
    destruct (rules_check_run cfg (set_rules old ip) w Hwf) as (w2 & Hrun2 & _).
    by eexists _, w2.
Qed.

(** The hypothesis of C10 holds for a list with an enabled and a disabled
    rule: only the key of the enabled rule has a result. *)
Lemma rules_check_rebuilds_sample :
  let off := {| key := "off"; url := "http://off.example/"; contains := None;
                enable := false |} in
  let cfg := sample_config [IsRuleData hello_rule; IsRuleData off] in
  ∃ ip' w',
    rules_check cfg (set_rules {["stale" := true]} sample_ip)
      (world_of (text_reply "hello world")) = (Ok ip', w') ∧
    dom (rules ip') = ({["hello"]} : gset string).
Proof.
  intros off cfg.
  destruct (rules_check_rebuilds cfg (set_rules {["stale" := true]} sample_ip)
              (world_of (text_reply "hello world")))
    as (ip' & w' & Hrun & Hdom & _).
  - repeat constructor.
  - exists ip', w'. split; [exact Hrun|]. rewrite Hdom. simpl.
    apply union_empty_r_L.
Defined.

(** ** One pass of the pipeline *)

Lemma validate_run (cfg : Config) (ip : IPData) (w : World) :
  Forall is_rule_data (RULES cfg) →
  let r1 := http_reply ip w in
  let r2 := net w (S (requests w)) HTTPS_CHECK_URL (to_http ip) in
  ∃ ip' w',
    validate cfg ip w = (Ok ip', w') ∧
    http ip' = Some (echo_ok r1) ∧ https ip' = Some (echo_ok r2) ∧
    rules ip' =
      rules_result (net w) (to_http ip) (S (S (requests w))) (RULES cfg) ∅ ∧
    redis w' = redis w ∧ trace w' = trace w.
Proof.
  intros Hwf r1 r2.
  destruct (echo_stages_run ip w)
    as (ip1 & w1 & Hrun1 & -> & Hstr & Hhttp & Hhttps & _).
  destruct (rules_check_run cfg ip1 (after_request r2 (after_request r1 w)) Hwf)
    as (w' & Hrun2 & _ & _ & Hredis & _ & Htrace).
  eexists _, w'. split.
  { unfold validate. unfold echo_stages in Hrun1.
    rewrite bind_run in Hrun1 |- *.
    destruct (http_check ip w) as [[ip0| |] w0]; [|done|done].
    rewrite bind_run. rewrite Hrun1. exact Hrun2. }
  simpl. unfold to_http. by rewrite Hstr.
Qed.

(** C1 (amended): for every endpoint and every configured rule list whose
    entries are all [RuleData], one pass of the pipeline returns normally,
    [http], [https] and the result of every enabled rule are booleans, and
    whatever goes wrong inside a stage (a failed request, a body that does
    not parse or lacks a true origin, a missing substring) is a false
    outcome of that stage. *)
Theorem validate_outcomes (cfg : Config) (ip : IPData) (w : World) :
  Forall is_rule_data (RULES cfg) →
  ∃ ip' w',
    validate cfg ip w = (Ok ip', w') ∧
    is_Some (http ip') ∧ is_Some (https ip') ∧
    (∀ rule, rule ∈ enabled_rules (RULES cfg) → is_Some (rules ip' !! key rule)) ∧
    (¬ has_true_origin (http_reply ip w) → http ip' = Some false) ∧
    (¬ has_true_origin (net w (S (requests w)) HTTPS_CHECK_URL (to_http ip)) →
       https ip' = Some false) ∧
    (∀ i rule,
       RULES cfg !! i = Some (IsRuleData rule) → enable rule = true →
       last_with_key (RULES cfg) i (key rule) →
       ¬ rule_passes rule
           (net w (S (S (requests w)) + length (enabled_rules (take i (RULES cfg))))%nat
                (url rule) (to_http ip)) →
       rules ip' !! key rule = Some false).
Proof.
  intros Hwf.
  destruct (validate_run cfg ip w Hwf)
    as (ip' & w' & Hrun & Hhttp & Hhttps & Hrules & _).
  exists ip', w'. split; [exact Hrun|].
  rewrite Hhttp, Hhttps, Hrules.
  split; [by eexists|]. split; [by eexists|]. split; [|split; [|split]].
  - intros rule Hin. apply elem_of_dom.
    rewrite rules_result_dom by done. apply elem_of_union_r.
    apply elem_of_list_to_set, list_elem_of_fmap.
    exists rule. split; [reflexivity|exact Hin].
  - intros Hno. destruct (echo_ok (http_reply ip w)) eqn:E; [|done].
    by apply echo_ok_true_origin in E.
  - intros Hno. destruct (echo_ok (net w (S (requests w)) _ _)) eqn:E; [|done].
    by apply echo_ok_true_origin in E.
  - intros i rule Hi Hen Hlast Hno.
    rewrite (rules_result_last _ _ _ Hwf i rule) by done.
    destruct (rule_ok _ _) eqn:E; [|done].
    by apply rule_ok_passes in E.
Qed.

(** The hypothesis of C1 holds for a list of one enabled rule, with a
    network on which every request times out: the pass returns with every
    outcome false. *)
Lemma validate_outcomes_all_timeouts :
  ∃ ip' w',
    validate hello_config sample_ip (world_of timeout_reply) = (Ok ip', w') ∧
    http ip' = Some false ∧ https ip' = Some false ∧
    rules ip' !! "hello" = Some false.
Proof.
  destruct (validate_outcomes hello_config sample_ip (world_of timeout_reply))
    as (ip' & w' & Hrun & _ & _ & _ & Hhttp & Hhttps & Hrule).
  - repeat constructor.
  - exists ip', w'. split; [exact Hrun|].
    split; [|split].
    + apply Hhttp. by intros (? & ? & ? & ? & _).
    + apply Hhttps. by intros (? & ? & ? & ? & _).
    + apply (Hrule 0%nat hello_rule eq_refl eq_refl).
      * intros [|[|j]] rule' Hlt Hj; [lia|done|done].
      * by intros (? & ? & ? & _).
Defined.

(** C1, as stated, fails: with a rule list that holds an entry which is not
    a [RuleData], the assertion of the rule stage raises out of the pass. *)
Lemma validate_raises_on_malformed_rule : ¬ validate_never_raises.
Proof.
  intros H.
  destruct (H malformed_config sample_ip (world_of timeout_reply))
    as (ip' & w' & Hrun & _).
  vm_compute in Hrun. discriminate.
Qed.

(** ** The worker loop *)

Lemma handle_task_exception_run (e : exn) (w : World) :
  handle_task_exception e w =
  (Ok (), with_trace (trace w ++ backoff e) (with_clock (clock w + seconds 5) w)).
Proof.
  unfold handle_task_exception, backoff, Logger.error, Logger.log, sleep, modify.
  rewrite bind_run. simpl. unfold with_trace, with_clock. simpl.
  by rewrite <- app_assoc.
Qed.

Lemma log_run (lv : level) (msg : string) (w : World) :
  Logger.log lv msg w = (Ok (), with_trace (trace w ++ [Log lv msg]) w).
Proof. reflexivity. Qed.

Lemma sleep_run (s : Z) (w : World) :
  sleep s w =
  (Ok (), with_trace (trace w ++ [Sleep s]) (with_clock (clock w + seconds s) w)).
Proof. reflexivity. Qed.

(** A task run under the handler of the loops never raises. *)
Lemma guarded_never_raises (task : M unit) (w : World) (e : exn) :
  (try_except task handle_task_exception w).1 ≠ Raise e.
Proof.
  rewrite try_except_run.
  destruct (task w) as [[a|e'|] w1]; [done| |done].
  by rewrite handle_task_exception_run.
Qed.

(** A loop body of the shape the three tasks share: a log line, the task
    under the handler, then the exit in test mode. *)
Lemma loop_body_never_raises (msg : string) (task : M unit) (after : M bool)
    (w : World) (e : exn) :
  (∀ w0 e0, (after w0).1 ≠ Raise e0) →
  ((Logger.debug msg;; try_except task handle_task_exception;; after) w).1
  ≠ Raise e.
Proof.
  intros Hafter. rewrite bind_run. unfold Logger.debug. rewrite log_run.
  rewrite bind_run.
  pose proof (guarded_never_raises task
                (with_trace (trace w ++ [Log DEBUG msg]) w)) as Hguard.
  destruct (try_except task handle_task_exception _) as [[a|e'|] w1];
    [apply Hafter|by specialize (Hguard e')|done].
Qed.

Lemma while_true_never_raises (body : M bool) :
  (∀ w e, (body w).1 ≠ Raise e) →
  ∀ fuel w e, (while_true fuel body w).1 ≠ Raise e.
Proof.
  intros Hbody. induction fuel as [|fuel IH]; intros w e; [done|].
  simpl. rewrite bind_run. specialize (Hbody w).
  destruct (body w) as [[[|]|e'|] w1]; simpl;
    [done|apply IH|by specialize (Hbody e')|done].
Qed.

Lemma check_task_body_raise (cfg : Config) (save_ip : IPData → M unit)
    (w w1 : World) (e : exn) :
  start_check cfg save_ip (logged DEBUG "[check] check task loop" w) = (Raise e, w1) →
  check_task_body cfg save_ip w =
  (Ok (bool_decide (APP_ENV cfg = TEST)), backed_off e w1).
Proof.
  intros Hstart. unfold check_task_body.
  rewrite bind_run. unfold Logger.debug. rewrite log_run.
  fold (logged DEBUG "[check] check task loop" w).
  rewrite bind_run, try_except_run, Hstart, handle_task_exception_run.
  fold (backed_off e w1). by case_decide; case_bool_decide.
Qed.

(** C9: no error propagates out of the worker task, however long it runs;
    an iteration whose body raises catches the error, logs it and sleeps the
    fixed 5 seconds, after which the loop goes on with the next iteration,
    or, in test mode, returns normally. *)
Theorem check_task_catches_errors (cfg : Config) (save_ip : IPData → M unit) :
  (∀ fuel w e, (check_task cfg save_ip fuel w).1 ≠ Raise e) ∧
  (∀ w e w1,
     start_check cfg save_ip (logged DEBUG "[check] check task loop" w)
       = (Raise e, w1) →
     check_task_body cfg save_ip w =
       (Ok (bool_decide (APP_ENV cfg = TEST)), backed_off e w1) ∧
     trace (backed_off e w1) =
       trace w1 ++ [Log ERROR ("[error] " +:+ str_exn e); Sleep 5]) ∧
  (∀ fuel w e w1,
     APP_ENV cfg = TEST →
     start_check cfg save_ip (logged DEBUG "[check] check task loop" w)
       = (Raise e, w1) →
     check_task cfg save_ip (S fuel) w = (Ok true, backed_off e w1)) ∧
  (∀ fuel w e w1,
     APP_ENV cfg ≠ TEST →
     start_check cfg save_ip (logged DEBUG "[check] check task loop" w)
       = (Raise e, w1) →
     check_task cfg save_ip (S fuel) w =
     check_task cfg save_ip fuel (backed_off e w1)).
Proof.
  split; [|split; [|split]].
  - intros fuel w e. apply while_true_never_raises. clear.
    intros w e. apply loop_body_never_raises.
    intros w0 e0. by case_decide.
  - intros w e w1 Hstart. split; [|done].
    by apply check_task_body_raise.
  - intros fuel w e w1 Htest Hstart. unfold check_task. simpl.
    rewrite bind_run, (check_task_body_raise _ _ _ _ _ Hstart).
    by rewrite bool_decide_eq_true_2.
  - intros fuel w e w1 Htest Hstart. unfold check_task. simpl.
    rewrite bind_run, (check_task_body_raise _ _ _ _ _ Hstart).
    by rewrite bool_decide_eq_false_2.
Qed.

(** The hypotheses of C9 hold in test mode when the Redis server cannot be
    reached: the single iteration returns after the log line and the
    backoff. *)
Lemma check_task_catches_errors_redis_down :
  ∃ w',
    check_task (sample_config []) no_ledger 1 redis_down_world = (Ok true, w') ∧
    trace w' = [Log DEBUG "[check] check task loop";
                Log ERROR "[error] connection refused"; Sleep 5].
Proof.
  destruct (check_task_catches_errors (sample_config []) no_ledger)
    as (_ & _ & Htest & _).
  eexists. split.
  - apply (Htest 0%nat redis_down_world (RedisError "connection refused")
             (logged DEBUG "[check] check task loop" redis_down_world));
      reflexivity.
  - reflexivity.
Defined.

(** ** The eviction sweeper *)

Lemma filter_ext_in {A} (P Q : A → Prop) `{∀ x, Decision (P x)}
    `{∀ x, Decision (Q x)} (l : list A) :
  (∀ x, x ∈ l → P x ↔ Q x) → filter P l = filter Q l.
Proof.
  induction l as [|a l IH]; intros Hext; [done|].
  rewrite !filter_cons.
  rewrite IH by (intros x Hx; apply Hext; by right).
  pose proof (Hext a ltac:(by left)) as Ha.
  by destruct (decide (P a)), (decide (Q a)); try tauto.
Qed.

Lemma filter_all {A} (P : A → Prop) `{∀ x, Decision (P x)} (l : list A) :
  (∀ x, x ∈ l → P x) → filter P l = l.
Proof.
  induction l as [|a l IH]; intros Hall; [done|].
  rewrite filter_cons, decide_True by (apply Hall; by left).
  f_equal. apply IH. intros x Hx. apply Hall. by right.
Qed.

Lemma pool_wf_score (pool : list (string * Z)) (m : string) (s1 s2 : Z) :
  pool_wf pool → (m, s1) ∈ pool → (m, s2) ∈ pool → s1 = s2.
Proof.
  unfold pool_wf. induction pool as [|[m0 s0] pool IH]; simpl.
  - by intros _ ?%elem_of_nil.
  - intros [Hfresh Hnodup]%NoDup_cons H1 H2.
    apply elem_of_cons in H1 as [H1|H1];
      apply elem_of_cons in H2 as [H2|H2]; simplify_eq.
    + done.
    + destruct Hfresh. apply list_elem_of_fmap. by exists (m0, s2).
    + destruct Hfresh. apply list_elem_of_fmap. by exists (m0, s1).
    + by apply IH.
Qed.

Lemma elem_of_in_band (pool : list (string * Z)) (lo hi : Z) (m : string) :
  m ∈ in_band pool lo hi ↔ ∃ s, (m, s) ∈ pool ∧ lo ≤ s ≤ hi.
Proof.
  unfold in_band. rewrite list_elem_of_fmap. split.
  - intros ([m' s] & -> & [Hband Hin]%list_elem_of_filter). by exists s.
  - intros (s & Hin & Hband). exists (m, s). split; [done|].
    by apply list_elem_of_filter.
Qed.

(** Removing the members of a band leaves the entries outside the band. *)
Lemma remove_band (pool : list (string * Z)) (lo hi : Z) :
  pool_wf pool →
  filter (λ ms, ms.1 ∉ in_band pool lo hi) pool =
  filter (λ ms, ¬ (lo ≤ ms.2 ≤ hi)) pool.
Proof.
  intros Hwf. apply filter_ext_in. intros [m s] Hin. simpl.
  rewrite elem_of_in_band. split.
  - intros Hout Hband. apply Hout. by exists s.
  - intros Hout (s' & Hin' & Hband).
    by rewrite (pool_wf_score pool m s s') in Hout.
Qed.

Lemma zset_at_with_zset (k : string) (z : list (string * Z)) (r : RedisData) :
  Redis.zset_at k (Redis.with_zset k z r) = z.
Proof. unfold Redis.zset_at, Redis.with_zset. simpl. by rewrite lookup_insert_eq. Qed.

(** C3: one cycle of the eviction sweeper removes from the verified pool
    exactly the endpoints whose score is in the range from the floor -100 to
    0, both ends included, and nothing else; the pending queue is left as it
    was. *)
Theorem remove_low_score_ip_removes (cfg : Config) (w : World) :
  redis_up w = true →
  pool_wf (verified_pool cfg w) →
  ∃ w',
    remove_low_score_ip cfg w = (Ok (), w') ∧
    verified_pool cfg w' =
      filter (λ ms, ¬ (-100 ≤ ms.2 ≤ 0)) (verified_pool cfg w) ∧
    (∀ m s, (m, s) ∈ verified_pool cfg w'
            ↔ (m, s) ∈ verified_pool cfg w ∧ ¬ (-100 ≤ s ≤ 0)) ∧
    pending_queue cfg w' = pending_queue cfg w.
Proof.
  intros Hup Hwf.
  assert (∃ w', remove_low_score_ip cfg w = (Ok (), w') ∧
                verified_pool cfg w' =
                  filter (λ ms, ¬ (-100 ≤ ms.2 ≤ 0)) (verified_pool cfg w) ∧
                pending_queue cfg w' = pending_queue cfg w)
    as (w' & Hrun & Hpool & Hqueue).
  { pose proof (remove_band (verified_pool cfg w) (-100) 0 Hwf) as Hband.
    unfold remove_low_score_ip.
    rewrite bind_run. unfold Redis.share at 1. rewrite Hup.
    rewrite bind_run. unfold Redis.zrangebyscore.
    fold (verified_pool cfg w). fold (in_band (verified_pool cfg w) (-100) 0).
    destruct (in_band (verified_pool cfg w) (-100) 0) as [|m ms] eqn:Hips.
    - exists w. split; [done|]. split; [|done].
      rewrite <- Hband. symmetry. apply filter_all.
      intros x _. apply not_elem_of_nil.
    - change (if (0 <? length (m :: ms))%nat then m :: ms else []) with (m :: ms).
      cbv beta iota zeta.
      rewrite bind_run. unfold IPSaver.remove_ip.
      rewrite bind_run. unfold Redis.share. rewrite Hup.
      unfold Redis.zrem. fold (verified_pool cfg w).
      eexists. split; [reflexivity|]. split; [|done].
      unfold verified_pool at 1. simpl. by rewrite zset_at_with_zset. }
  exists w'. split; [done|]. split; [done|]. split; [|done].
  intros m s. rewrite Hpool, list_elem_of_filter. simpl. tauto.
Qed.

(** The hypotheses of C3 hold for a pool with the scores -50, 0, 1 and 100:
    the cycle removes the entries with -50 and 0 and keeps those with 1 and
    100. *)
Lemma remove_low_score_ip_four_scores :
  ∃ w',
    remove_low_score_ip (sample_config []) (store_world [] four_scores)
      = (Ok (), w') ∧
    verified_pool (sample_config []) w' = [("10.0.0.3:80", 1); ("10.0.0.4:80", 100)].
Proof.
  destruct (remove_low_score_ip_removes (sample_config [])
              (store_world [] four_scores))
    as (w' & Hrun & Hpool & _).
  - reflexivity.
  - apply (bool_decide_unpack _). by vm_compute.
  - exists w'. split; [exact Hrun|]. rewrite Hpool. reflexivity.
Defined.

(** ** The rebalancer *)

Lemma list_at_with_list (k : string) (l : list string) (r : RedisData) :
  Redis.list_at k (Redis.with_list k l r) = l.
Proof. unfold Redis.list_at, Redis.with_list. simpl. by rewrite lookup_insert_eq. Qed.

Lemma backpressure_guard (cfg : Config) (w : World) :
  Qle_bool (inject_Z (Z.of_nat (length (Redis.zset_at (REDIS_KEY_IP_POOL cfg) (redis w))))
            * RE_PUSH_TO_CHECK_POOL_RATE cfg)
           (inject_Z (Z.of_nat (length (Redis.list_at (REDIS_KEY_CHECK_POOL cfg) (redis w)))))
  = true ↔ backpressure cfg w.
Proof. apply Qle_bool_iff. Qed.

Lemma resend_check_ip_run (cfg : Config) (w : World) :
  resend_check_ip cfg w =
  if redis_up w then
    if decide (backpressure cfg w) then (Ok (), w)
    else (starts ← lift (Py.range (DEFAULT_MINI_SCORE cfg + 1)
                                   (DEFAULT_MAX_SCORE cfg + DEFAULT_INC_SCORE cfg)
                                   (DEFAULT_INC_SCORE cfg));
          resend_bands cfg starts) w
  else (Raise (RedisError "connection refused"), w).
Proof.
  unfold resend_check_ip. rewrite bind_run. unfold Redis.share.
  destruct (redis_up w); [|done].
  rewrite bind_run. unfold Redis.llen. rewrite bind_run. unfold Redis.zcount.
  pose proof (backpressure_guard cfg w) as Hguard.
  destruct (Qle_bool _ _).
  - rewrite decide_True by (by apply Hguard). done.
  - rewrite decide_False; [done|]. intros Hb. by apply Hguard in Hb.
Qed.

Lemma resend_bands_run (cfg : Config) (starts : list Z) :
  ∀ w, redis_up w = true →
  ∃ w',
    resend_bands cfg starts w = (Ok (), w') ∧
    redis_up w' = true ∧ clock w' = clock w ∧
    zsets (redis w') = zsets (redis w) ∧
    stamps (redis w') = stamps (redis w) ∧
    pending_queue cfg w' =
      pending_queue cfg w ++
      concat ((λ i, in_band (verified_pool cfg w) i (i + DEFAULT_INC_SCORE cfg - 1))
                <$> starts).
Proof.
  induction starts as [|i rest IH]; intros w Hup.
  - exists w. simpl. by rewrite app_nil_r.
  - simpl. rewrite bind_run. unfold Redis.zrangebyscore.
    fold (verified_pool cfg w).
    fold (in_band (verified_pool cfg w) i (i + DEFAULT_INC_SCORE cfg - 1)).
    destruct (in_band (verified_pool cfg w) i (i + DEFAULT_INC_SCORE cfg - 1))
      as [|m ms] eqn:Hband.
    + rewrite bind_run. simpl. apply IH, Hup.
    + rewrite bind_run.
      set (w1 := logged INFO
                   ("[check] send " +:+ pretty (length (m :: ms)) +:+ " ip to check pools")
                   (with_redis (Redis.with_list (REDIS_KEY_CHECK_POOL cfg)
                                  (pending_queue cfg w ++ m :: ms) (redis w)) w)).
      assert ((push_to_pool cfg (m :: ms);; mret ()) w = (Ok (), w1)) as ->.
      { rewrite bind_run. unfold push_to_pool. rewrite bind_run.
        unfold Redis.share. rewrite Hup. reflexivity. }
      destruct (IH w1 Hup) as (w' & Hrun & Hup' & Hclock & Hz & Hs & Hq).
      exists w'. split; [exact Hrun|]. split; [done|]. split; [done|].
      split; [done|]. split; [done|].
      rewrite Hq. unfold verified_pool, pending_queue, w1. simpl.
      rewrite list_at_with_list. fold (pending_queue cfg w).
      by rewrite <- app_assoc.
Qed.

Lemma recheck_ip_try_run (cfg : Config) (w : World) :
  recheck_ip_try cfg w =
  if redis_up w then
    if decide (run_recorded cfg w) then (Ok (), w)
    else resend_check_ip cfg (stamped w)
  else (Raise (RedisError "connection refused"), w).
Proof.
  unfold recheck_ip_try, Redis.last_time_check, Redis.save_last_time.
  unfold mbind, M_bind, mret, M_ret, get_world, modify, Redis.share.
  destruct (redis_up w) eqn:Hup; [|done].
  destruct (decide (run_recorded cfg w)) as [(t & Ht & Hlt)|Hno].
  - rewrite Ht. by rewrite bool_decide_eq_true_2.
  - assert (match stamps (redis w) !! "recheck_ip" with
            | Some t => bool_decide (clock w - t < seconds (DEFAULT_CHECK_INTERVAL cfg))
            | None => false
            end = false) as ->.
    { destruct (stamps (redis w) !! "recheck_ip") as [t|] eqn:Ht; [|done].
      apply bool_decide_eq_false_2. intros Hlt. apply Hno. by exists t. }
    simpl. by rewrite Hup.
Qed.

(** What an iteration of the rebalancer does to the Redis data is what the
    body of its [try] does to them. *)
Lemma recheck_ip_task_body_redis (cfg : Config) (w : World) :
  redis (recheck_ip_task_body cfg w).2 =
  redis (recheck_ip_try cfg (logged DEBUG "[check] recheck ip task loop" w)).2.
Proof.
  unfold recheck_ip_task_body. rewrite bind_run. unfold Logger.debug.
  rewrite log_run. fold (logged DEBUG "[check] recheck ip task loop" w).
  cbv beta iota. rewrite bind_run, try_except_run.
  destruct (recheck_ip_try cfg _) as [[[]|e|] w1].
  - by case_decide.
  - rewrite handle_task_exception_run. by case_decide.
  - done.
Qed.

(** C4: when the pending queue is at least as long as the size of the
    verified pool times the ratio, the cycle pushes nothing: the
    redistribution leaves the world as it is, and the whole iteration of
    the rebalancer leaves the pending queue and the verified pool
    unchanged. *)
Theorem resend_check_ip_backpressure (cfg : Config) (w : World) :
  backpressure cfg w →
  (resend_check_ip cfg w).2 = w ∧
  pending_queue cfg (recheck_ip_task_body cfg w).2 = pending_queue cfg w ∧
  verified_pool cfg (recheck_ip_task_body cfg w).2 = verified_pool cfg w.
Proof.
  intros Hguard.
  assert (∀ w0, lists (redis w0) = lists (redis w) →
                zsets (redis w0) = zsets (redis w) →
                (resend_check_ip cfg w0).2 = w0) as Hskip.
  { intros w0 Hl Hz. rewrite resend_check_ip_run.
    destruct (redis_up w0); [|done].
    rewrite decide_True; [done|].
    unfold backpressure, verified_pool, pending_queue, Redis.zset_at, Redis.list_at in *.
    by rewrite Hl, Hz. }
  split; [by apply Hskip|].
  assert (lists (redis (recheck_ip_task_body cfg w).2) = lists (redis w) ∧
          zsets (redis (recheck_ip_task_body cfg w).2) = zsets (redis w))
    as [Hl Hz].
  { rewrite recheck_ip_task_body_redis, recheck_ip_try_run.
    set (w0 := logged _ _ w).
    destruct (redis_up w0); [|done].
    destruct (decide (run_recorded cfg w0)); [done|].
    by rewrite (Hskip (stamped w0) eq_refl eq_refl). }
  unfold pending_queue, verified_pool, Redis.list_at, Redis.zset_at.
  by rewrite Hl, Hz.
Qed.

(** The hypothesis of C4 holds for a queue of length 10, a pool of size 10
    and the ratio 1.0: nothing is pushed. *)
Lemma resend_check_ip_backpressure_ten :
  let w := store_world ten_queue ten_pool in
  length (pending_queue (sample_config []) w) = 10%nat ∧
  length (verified_pool (sample_config []) w) = 10%nat ∧
  (resend_check_ip (sample_config []) w).2 = w ∧
  pending_queue (sample_config []) (recheck_ip_task_body (sample_config []) w).2
    = ten_queue.
Proof.
  intros w.
  destruct (resend_check_ip_backpressure (sample_config []) w)
    as (Hsame & Hqueue & _).
  - by vm_compute.
  - split; [reflexivity|]. split; [reflexivity|]. split; [exact Hsame|].
    rewrite Hqueue. reflexivity.
Defined.

(** *** The bands *)

Lemma range_bands (cfg : Config) :
  0 < DEFAULT_INC_SCORE cfg →
  Py.range (DEFAULT_MINI_SCORE cfg + 1)
           (DEFAULT_MAX_SCORE cfg + DEFAULT_INC_SCORE cfg)
           (DEFAULT_INC_SCORE cfg)
  = inr (band_lo cfg <$> seq 0 (band_count cfg)).
Proof.
  intros Hinc. unfold Py.range.
  destruct (Z.eqb_spec (DEFAULT_INC_SCORE cfg) 0) as [?|_]; [lia|].
  destruct (Z.ltb_spec 0 (DEFAULT_INC_SCORE cfg)) as [_|?]; [done|lia].
Qed.

Lemma band_hi_lo (cfg : Config) (k : nat) :
  band_lo cfg k + DEFAULT_INC_SCORE cfg - 1 = band_hi cfg k.
Proof. unfold band_lo, band_hi. lia. Qed.

(** The band a score above the minimum falls in. *)
Lemma in_band_index (cfg : Config) (s : Z) (k : nat) :
  0 < DEFAULT_INC_SCORE cfg → DEFAULT_MINI_SCORE cfg < s →
  band_lo cfg k ≤ s ≤ band_hi cfg k
  ↔ k = Z.to_nat ((s - DEFAULT_MINI_SCORE cfg - 1) / DEFAULT_INC_SCORE cfg).
Proof.
  intros Hinc Hmin. unfold band_lo, band_hi.
  set (inc := DEFAULT_INC_SCORE cfg) in *.
  set (d := s - DEFAULT_MINI_SCORE cfg - 1).
  assert (0 ≤ d) as Hd by (unfold d; lia).
  pose proof (Z.div_mod d inc ltac:(lia)) as Hdiv.
  pose proof (Z.mod_pos_bound d inc Hinc) as Hmod.
  assert (0 ≤ d / inc) as Hq by (apply Z.div_pos; lia).
  split.
  - intros [Hlo Hhi].
    assert (Z.of_nat k = d / inc) as Hk by (unfold d in *; nia).
    lia.
  - intros ->. rewrite Z2Nat.id by done. unfold d in *. nia.
Qed.

Lemma band_index_lt (cfg : Config) (s : Z) :
  0 < DEFAULT_INC_SCORE cfg →
  DEFAULT_MINI_SCORE cfg < s ≤ DEFAULT_MAX_SCORE cfg →
  (Z.to_nat ((s - DEFAULT_MINI_SCORE cfg - 1) / DEFAULT_INC_SCORE cfg)
   < band_count cfg)%nat.
Proof.
  intros Hinc [Hmin Hmax]. unfold band_count.
  set (inc := DEFAULT_INC_SCORE cfg) in *.
  apply Z2Nat.inj_lt; [apply Z.div_pos; lia|apply Z.div_pos; lia|].
  apply Z.div_lt_upper_bound; [done|].
  set (n := (DEFAULT_MAX_SCORE cfg + inc - (DEFAULT_MINI_SCORE cfg + 1) + inc - 1)).
  pose proof (Z.div_mod n inc ltac:(lia)) as Hdiv.
  pose proof (Z.mod_pos_bound n inc Hinc) as Hmod.
  unfold n in *. nia.
Qed.

Lemma bands_increase (cfg : Config) (j k : nat) :
  0 < DEFAULT_INC_SCORE cfg → (j < k)%nat → band_hi cfg j < band_lo cfg k.
Proof. intros Hinc Hjk. unfold band_lo, band_hi. nia. Qed.

Lemma occurrences_app (e : string) (l1 l2 : list string) :
  occurrences e (l1 ++ l2) = (occurrences e l1 + occurrences e l2)%nat.
Proof. unfold occurrences. by rewrite filter_app, length_app. Qed.

Lemma occurrences_NoDup (e : string) (l : list string) :
  NoDup l → occurrences e l = if decide (e ∈ l) then 1%nat else 0%nat.
Proof.
  unfold occurrences. induction 1 as [|x l Hx Hl IH]; [done|].
  rewrite filter_cons. destruct (decide (x = e)) as [->|Hne].
  - rewrite decide_True by (by left). simpl. rewrite IH.
    by rewrite decide_False.
  - rewrite IH. destruct (decide (e ∈ l)) as [Hin|Hout].
    + rewrite decide_True; [done|by right].
    + rewrite decide_False; [done|].
      intros [?|?]%elem_of_cons; [by subst|done].
Qed.

Lemma in_band_NoDup (pool : list (string * Z)) (lo hi : Z) :
  pool_wf pool → NoDup (in_band pool lo hi).
Proof.
  intros Hwf. unfold in_band. apply (sublist_NoDup _ (pool.*1)); [done|].
  apply fmap_sublist, sublist_filter.
Qed.

(** How often an endpoint of the pool occurs in the first [n] bands. *)
Lemma occurrences_bands (cfg : Config) (pool : list (string * Z))
    (e : string) (s : Z) (n : nat) :
  0 < DEFAULT_INC_SCORE cfg → DEFAULT_MINI_SCORE cfg < s →
  pool_wf pool → (e, s) ∈ pool →
  occurrences e
    (concat ((λ k, in_band pool (band_lo cfg k) (band_hi cfg k)) <$> seq 0 n))
  = if decide (Z.to_nat ((s - DEFAULT_MINI_SCORE cfg - 1) / DEFAULT_INC_SCORE cfg) < n)%nat
    then 1%nat else 0%nat.
Proof.
  intros Hinc Hmin Hwf Hin.
  set (k0 := Z.to_nat ((s - DEFAULT_MINI_SCORE cfg - 1) / DEFAULT_INC_SCORE cfg)).
  induction n as [|n IH]; [done|].
  rewrite seq_S, fmap_app, concat_app, occurrences_app, IH. simpl.
  rewrite app_nil_r, occurrences_NoDup by (by apply in_band_NoDup).
  assert (e ∈ in_band pool (band_lo cfg n) (band_hi cfg n) ↔ n = k0) as Hband.
  { unfold k0. rewrite elem_of_in_band, <- (in_band_index cfg s n Hinc Hmin). split.
    - intros (s' & Hin' & Hs'). by rewrite (pool_wf_score pool e s s').
    - intros Hs. by exists s. }
  destruct (decide (e ∈ _)) as [Hyes|Hno].
  - apply Hband in Hyes. subst n.
    rewrite decide_False by lia. rewrite decide_True by lia. done.
  - assert (n ≠ k0) by (intros ?; by apply Hno, Hband).
    destruct (decide (k0 < n)%nat).
    + rewrite decide_True by lia. done.
    + rewrite decide_False by lia. done.
Qed.

Lemma resend_check_ip_pushes (cfg : Config) (w : World) :
  0 < DEFAULT_INC_SCORE cfg →
  redis_up w = true →
  ¬ backpressure cfg w →
  ∃ w',
    resend_check_ip cfg w = (Ok (), w') ∧
    pending_queue cfg w' =
      pending_queue cfg w ++ band_members cfg (verified_pool cfg w) ∧
    zsets (redis w') = zsets (redis w) ∧
    stamps (redis w') = stamps (redis w).
Proof.
  intros Hinc Hup Hguard.
  rewrite resend_check_ip_run, Hup, decide_False by done.
  rewrite bind_run, range_bands by done.
  destruct (resend_bands_run cfg (band_lo cfg <$> seq 0 (band_count cfg)) w Hup)
    as (w' & Hrun & _ & _ & Hz & Hs & Hq).
  exists w'. split; [exact Hrun|]. split; [|done].
  rewrite Hq. unfold band_members. do 2 f_equal.
  rewrite <- list_fmap_compose. apply list_fmap_ext.
  intros i k _. simpl. by rewrite band_hi_lo.
Qed.

(** C2: in a cycle of the rebalancer in which both guards pass, the bands
    [MIN+1+k*INC, MIN+(k+1)*INC] are gone through from the lowest up; they
    are pairwise disjoint and cover every score above the minimum up to the
    maximum, and every endpoint of the verified pool with such a score is
    pushed onto the pending queue exactly once. *)
Theorem recheck_ip_pushes_each_once (cfg : Config) (w : World) :
  0 < DEFAULT_INC_SCORE cfg →
  redis_up w = true →
  ¬ run_recorded cfg w →
  ¬ backpressure cfg w →
  pool_wf (verified_pool cfg w) →
  ∃ brk w',
    recheck_ip_task_body cfg w = (Ok brk, w') ∧
    pending_queue cfg w' =
      pending_queue cfg w ++ band_members cfg (verified_pool cfg w) ∧
    verified_pool cfg w' = verified_pool cfg w ∧
    (∀ e s, (e, s) ∈ verified_pool cfg w →
            DEFAULT_MINI_SCORE cfg < s ≤ DEFAULT_MAX_SCORE cfg →
            occurrences e (band_members cfg (verified_pool cfg w)) = 1%nat) ∧
    (∀ s, DEFAULT_MINI_SCORE cfg < s ≤ DEFAULT_MAX_SCORE cfg →
          ∃ k, (k < band_count cfg)%nat ∧ band_lo cfg k ≤ s ≤ band_hi cfg k) ∧
    (∀ j k s, band_lo cfg j ≤ s ≤ band_hi cfg j →
              band_lo cfg k ≤ s ≤ band_hi cfg k → j = k) ∧
    (∀ j k, (j < k)%nat → band_hi cfg j < band_lo cfg k).
Proof.
  intros Hinc Hup Hfresh Hguard Hwf.
  set (w0 := stamped (logged DEBUG "[check] recheck ip task loop" w)).
  destruct (resend_check_ip_pushes cfg w0 Hinc Hup Hguard)
    as (w1 & Hrun & Hq & Hz & _).
  assert (∃ brk w', recheck_ip_task_body cfg w = (Ok brk, w') ∧
                    redis w' = redis w1) as (brk & w' & Hbody & Hredis).
  { unfold recheck_ip_task_body. rewrite bind_run. unfold Logger.debug.
    rewrite log_run. fold (logged DEBUG "[check] recheck ip task loop" w).
    cbv beta iota. rewrite bind_run, try_except_run, recheck_ip_try_run.
    change (redis_up (logged DEBUG "[check] recheck ip task loop" w))
      with (redis_up w).
    rewrite Hup, decide_False by done. fold w0. rewrite Hrun.
    case_decide; by eexists _, _. }
  exists brk, w'. split; [exact Hbody|].
  split; [|split; [|split; [|split; [|split]]]].
  - unfold pending_queue at 1. rewrite Hredis. exact Hq.
  - unfold verified_pool, Redis.zset_at. by rewrite Hredis, Hz.
  - intros e s Hin [Hmin Hmax]. unfold band_members.
    rewrite (occurrences_bands cfg _ e s) by done.
    by rewrite decide_True by (by apply band_index_lt).
  - intros s [Hmin Hmax]. eexists. split; [by apply band_index_lt|].
    by apply in_band_index.
  - intros j k s Hj Hk.
    destruct (decide (DEFAULT_MINI_SCORE cfg < s)) as [Hmin|Hmin].
    + apply in_band_index in Hj, Hk; try done. by subst.
    + unfold band_lo in Hj. nia.
  - intros j k. by apply bands_increase.
Qed.

(** The hypotheses of C2 hold for an empty queue and a pool of ten
    endpoints with the scores 5, 15, ..., 95 under the bands of width 10
    over 1..100: each endpoint is pushed once, from the lowest band up. *)
Lemma recheck_ip_pushes_each_once_ten :
  ∃ brk w',
    recheck_ip_task_body (sample_config []) (store_world [] ten_pool) = (Ok brk, w') ∧
    pending_queue (sample_config []) w' = ten_pool.*1 ∧
    occurrences "10.0.2.3:80" (pending_queue (sample_config []) w') = 1%nat.
Proof.
  destruct (recheck_ip_pushes_each_once (sample_config []) (store_world [] ten_pool))
    as (brk & w' & Hrun & Hqueue & _ & Honce & _).
  - reflexivity.
  - reflexivity.
  - intros (t & Ht & _). vm_compute in Ht. discriminate.
  - intros Hguard. vm_compute in Hguard. by apply Hguard.
  - apply (bool_decide_unpack _). by vm_compute.
  - exists brk, w'. split; [exact Hrun|]. rewrite Hqueue.
    split; [reflexivity|].
    apply (Honce "10.0.2.3:80" 35).
    + apply (bool_decide_unpack _). by vm_compute.
    + simpl. lia.
Defined.

(** *** The run-deduplication guard *)

Lemma resend_check_ip_stamps (cfg : Config) (w : World) :
  stamps (redis (resend_check_ip cfg w).2) = stamps (redis w).
Proof.
  rewrite resend_check_ip_run.
  destruct (redis_up w) eqn:Hup; [|done].
  destruct (decide (backpressure cfg w)); [done|].
  rewrite bind_run.
  destruct (Py.range _ _ _) as [e|starts]; [done|]. simpl.
  by destruct (resend_bands_run cfg starts w Hup) as (w' & -> & _ & _ & _ & Hs & _).
Qed.

(** C5: an invocation of the rebalancer that finds a run recorded within
    the interval changes nothing in the store; one that finds none, with the
    store reachable, stamps its own time and proceeds; hence a second
    invocation that comes within the interval of a first one that stamped
    finds the stamp of the first and changes nothing: it neither stamps
    again nor pushes an endpoint. *)
Theorem recheck_ip_dedup (cfg : Config) :
  (∀ w, run_recorded cfg w →
        redis (recheck_ip_task_body cfg w).2 = redis w) ∧
  (∀ w, redis_up w = true → ¬ run_recorded cfg w →
        stamps (redis (recheck_ip_task_body cfg w).2) !! "recheck_ip"
        = Some (clock w)) ∧
  (∀ w1 w2,
     redis_up w1 = true → ¬ run_recorded cfg w1 →
     stamps (redis w2) !! "recheck_ip"
       = stamps (redis (recheck_ip_task_body cfg w1).2) !! "recheck_ip" →
     clock w2 - clock w1 < seconds (DEFAULT_CHECK_INTERVAL cfg) →
     redis (recheck_ip_task_body cfg w2).2 = redis w2).
Proof.
  assert (∀ w, run_recorded cfg w →
               redis (recheck_ip_task_body cfg w).2 = redis w) as Hskip.
  { intros w Hrec. rewrite recheck_ip_task_body_redis, recheck_ip_try_run.
    destruct (redis_up _); [|done].
    by rewrite decide_True by exact Hrec. }
  assert (∀ w, redis_up w = true → ¬ run_recorded cfg w →
               stamps (redis (recheck_ip_task_body cfg w).2) !! "recheck_ip"
               = Some (clock w)) as Hstamp.
  { intros w Hup Hfresh. rewrite recheck_ip_task_body_redis, recheck_ip_try_run.
    change (redis_up (logged DEBUG "[check] recheck ip task loop" w))
      with (redis_up w).
    rewrite Hup, decide_False by exact Hfresh.
    rewrite resend_check_ip_stamps. simpl. apply lookup_insert_eq. }
  split; [exact Hskip|]. split; [exact Hstamp|].
  intros w1 w2 Hup Hfresh Hseen Hsoon.
  apply Hskip. exists (clock w1). split; [|done].
  by rewrite Hseen, Hstamp.
Qed.

Lemma redis_with_clock (t : Z) (w : World) : redis (with_clock t w) = redis w.
Proof. reflexivity. Qed.

(** The hypotheses of C5 hold for a first invocation at time 0 on a store
    without a stamp and a second one 30 seconds later, with the interval of
    60 seconds: the second one leaves the store as the first one left it. *)
Lemma recheck_ip_dedup_half_interval :
  let cfg := sample_config [] in
  let w1 := store_world [] ten_pool in
  let w2 := with_clock (seconds 30) (recheck_ip_task_body cfg w1).2 in
  stamps (redis w2) !! "recheck_ip" = Some 0 ∧
  redis (recheck_ip_task_body cfg w2).2 = redis w2.
Proof.
  intros cfg w1 w2.
  destruct (recheck_ip_dedup cfg) as (_ & Hstamp & Hpair).
  assert (¬ run_recorded cfg w1) as Hfresh
    by (intros (t & Ht & _); vm_compute in Ht; discriminate).
  split.
  - unfold w2. rewrite redis_with_clock. exact (Hstamp w1 eq_refl Hfresh).
  - apply (Hpair w1 w2 eq_refl Hfresh).
    + unfold w2. by rewrite redis_with_clock.
    + unfold w2. reflexivity.
Defined.

(** * Further properties *)

(** ** The stages of a pass *)

(** X1: the HTTPS stage always returns after exactly one request; [https]
    is true iff the reply is parseable with a true origin and false
    otherwise; the stage records no latency and leaves [http], the rule
    results, the store and the trace as they are. *)
Theorem https_check_outcome (ip : IPData) (w : World) :
  ∃ ip' w',
    https_check ip w = (Ok ip', w') ∧
    (https ip' = Some true ↔ has_true_origin (https_reply ip w)) ∧
    (https ip' ≠ Some true → https ip' = Some false) ∧
    http ip' = http ip ∧ delay ip' = delay ip ∧ rules ip' = rules ip ∧
    ip_str ip' = ip_str ip ∧
    requests w' = S (requests w) ∧ redis w' = redis w ∧ trace w' = trace w.
Proof.
  eexists _, _. split; [apply https_check_run|]. simpl.
  pose proof (echo_ok_true_origin (https_reply ip w)) as Hok.
  split; [|split; [|done]].
  - rewrite <- Hok. split; [by intros [= ->]|by intros ->].
  - by destruct (echo_ok _).
Qed.

(** X2: with a well-formed rule list, one pass issues two echo requests and
    one request for each enabled rule, keeps the endpoint of the entry, and
    touches neither the store nor the trace. *)
Theorem validate_effects (cfg : Config) (ip : IPData) (w : World) :
  Forall is_rule_data (RULES cfg) →
  ∃ ip' w',
    validate cfg ip w = (Ok ip', w') ∧
    requests w' = (requests w + 2 + length (enabled_rules (RULES cfg)))%nat ∧
    ip_str ip' = ip_str ip ∧
    net w' = net w ∧ redis w' = redis w ∧ redis_up w' = redis_up w ∧
    trace w' = trace w.
Proof.
  intros Hwf.
  destruct (echo_stages_run ip w)
    as (ip1 & w1 & Hrun1 & -> & Hstr & _).
  set (w1 := after_request _ (after_request _ w)) in *.
  destruct (rules_check_run cfg ip1 w1 Hwf)
    as (w' & Hrun2 & Hnet & Hreq & Hredis & Hup & Htrace).
  eexists _, w'. split.
  { unfold validate. unfold echo_stages in Hrun1.
    rewrite bind_run in Hrun1 |- *.
    destruct (http_check ip w) as [[ip0| |] w0]; [|done|done].
    rewrite bind_run. rewrite Hrun1. exact Hrun2. }
  rewrite Hreq, Hnet, Hredis, Hup, Htrace. simpl.
  repeat split; (done || lia).
Qed.

(** The hypothesis of X2 holds for the list of one enabled rule: the pass
    issues three requests. *)
Lemma validate_effects_hello :
  ∃ ip' w',
    validate hello_config sample_ip (world_of timeout_reply) = (Ok ip', w') ∧
    requests w' = 3%nat ∧ ip_str ip' = "198.51.100.4:8080".
Proof.
  destruct (validate_effects hello_config sample_ip (world_of timeout_reply))
    as (ip' & w' & Hrun & Hreq & Hstr & _).
  - repeat constructor.
  - exists ip', w'. split; [exact Hrun|]. split; [exact Hreq|exact Hstr].
Defined.

(** X3: only the HTTP stage writes the latency: after a pass the delay is
    the time the HTTP request took when [http] is true and the delay the
    entry had before otherwise, so an entry made fresh for the pass has a
    delay exactly when [http] is true. *)
Theorem validate_delay (cfg : Config) (ip : IPData) (w : World) :
  Forall is_rule_data (RULES cfg) →
  ∃ ip' w',
    validate cfg ip w = (Ok ip', w') ∧
    (http ip' = Some true → delay ip' = Some (elapsed (http_reply ip w))) ∧
    (http ip' ≠ Some true → delay ip' = delay ip) ∧
    (delay ip = None → (is_Some (delay ip') ↔ http ip' = Some true)).
Proof.
  intros Hwf.
  destruct (echo_stages_run ip w)
    as (ip1 & w1 & Hrun1 & -> & _ & Hhttp & _ & Hdelay & _).
  set (w1 := after_request _ (after_request _ w)) in *.
  destruct (rules_check_run cfg ip1 w1 Hwf) as (w' & Hrun2 & _).
  eexists _, w'. split.
  { unfold validate. unfold echo_stages in Hrun1.
    rewrite bind_run in Hrun1 |- *.
    destruct (http_check ip w) as [[ip0| |] w0]; [|done|done].
    rewrite bind_run. rewrite Hrun1. exact Hrun2. }
  simpl. rewrite Hhttp, Hdelay.
  destruct (echo_ok (http_reply ip w)).
  - split; [done|]. split; [done|]. intros _. split; [done|by eexists].
  - split; [done|]. split; [done|]. intros ->.
    split; [by intros [? ?]|done].
Qed.

(** The hypothesis of X3 holds for a fresh entry on a network that answers
    the echo requests: the delay is the quarter second the request took. *)
Lemma validate_delay_echo :
  ∃ ip' w',
    validate hello_config sample_ip (echo_world true false) = (Ok ip', w') ∧
    delay ip' = Some 250000.
Proof.
  destruct (validate_delay hello_config sample_ip (echo_world true false))
    as (ip' & w' & Hrun & Htrue & _).
  - repeat constructor.
  - exists ip', w'. split; [exact Hrun|].
    rewrite Htrue; [reflexivity|].
    vm_compute in Hrun. by injection Hrun as <- _.
Defined.

(** ** The rule stage on a malformed list *)

Lemma rules_loop_malformed (ip : IPData) (good : list RuleEntry)
    (repr : string) (rest : list RuleEntry) :
  Forall is_rule_data good →
  ∀ (acc : gmap string bool) (w : World), ∃ w',
    rules_loop ip (good ++ NotRuleData repr :: rest) acc w =
      (Raise (AssertionError "Error rule format"), w') ∧
    requests w' = (requests w + length (enabled_rules good))%nat ∧
    redis w' = redis w ∧ redis_up w' = redis_up w ∧ trace w' = trace w.
Proof.
  induction 1 as [|entry good Hentry _ IH]; intros acc w.
  - exists w. simpl. repeat split; (done || lia).
  - destruct entry as [rule|]; [|done]. simpl.
    destruct (enable rule); simpl.
    + rewrite bind_run, rule_probe_run.
      set (r := net w (requests w) (url rule) (to_http ip)).
      destruct (IH (<[key rule := rule_ok rule r]> acc) (after_request r w))
        as (w' & Hrun & Hreq & Hredis & Hup & Htrace).
      exists w'. rewrite Hrun. simpl in *. repeat split; (done || lia).
    + apply IH.
Qed.

Lemma malformed_split (entries : list RuleEntry) :
  ¬ Forall is_rule_data entries →
  ∃ good repr rest,
    entries = good ++ NotRuleData repr :: rest ∧ Forall is_rule_data good.
Proof.
  induction entries as [|entry entries IH]; intros Hbad.
  - by destruct Hbad.
  - destruct entry as [rule|repr].
    + destruct IH as (good & repr & rest & -> & Hgood).
      { intros Hall. apply Hbad. by constructor. }
      exists (IsRuleData rule :: good), repr, rest. split; [done|].
      by constructor.
    + by exists [], repr, entries.
Qed.

(** X4: the rule stage returns exactly when every entry of the rule list is
    a [RuleData]; otherwise it raises the assertion error at the first
    entry that is not one, after one request for each enabled rule before
    that entry and none for the entries after it. *)
Theorem rules_check_returns_iff (cfg : Config) (ip : IPData) (w : World) :
  (Forall is_rule_data (RULES cfg)
   ↔ ∃ ip' w', rules_check cfg ip w = (Ok ip', w')) ∧
  (∀ good repr rest,
     RULES cfg = good ++ NotRuleData repr :: rest →
     Forall is_rule_data good →
     ∃ w',
       rules_check cfg ip w = (Raise (AssertionError "Error rule format"), w') ∧
       requests w' = (requests w + length (enabled_rules good))%nat).
Proof.
  assert (∀ good repr rest,
            RULES cfg = good ++ NotRuleData repr :: rest →
            Forall is_rule_data good →
            ∃ w',
              rules_check cfg ip w
                = (Raise (AssertionError "Error rule format"), w') ∧
              requests w' = (requests w + length (enabled_rules good))%nat)
    as Hraise.
  { intros good repr rest Hsplit Hgood. unfold rules_check.
    rewrite bind_run, Hsplit.
    destruct (rules_loop_malformed ip good repr rest Hgood ∅ w)
      as (w' & -> & Hreq & _).
    by exists w'. }
  split; [|exact Hraise]. split.
  - intros Hwf. destruct (rules_check_run cfg ip w Hwf) as (w' & Hrun & _).
    by eexists _, w'.
  - intros (ip' & w' & Hrun).
    destruct (decide (Forall is_rule_data (RULES cfg))) as [|Hbad]; [done|].
    destruct (malformed_split _ Hbad) as (good & repr & rest & Hsplit & Hgood).
    destruct (Hraise good repr rest Hsplit Hgood) as (w'' & Hrun' & _).
    rewrite Hrun in Hrun'. discriminate.
Qed.

(** ** One check *)

Lemma validate_then {A} (cfg : Config) (ip0 : IPData) (k : IPData → M A)
    (w : World) :
  (ip ← http_check ip0; ip ← https_check ip; ip ← rules_check cfg ip; k ip) w
  = (validate cfg ip0 ≫= k) w.
Proof.
  unfold validate. rewrite !bind_run.
  destruct (http_check ip0 w) as [[ip1| |] w1]; [|done|done].
  rewrite !bind_run.
  by destruct (https_check ip1 w1) as [[ip2| |] w2].
Qed.

Lemma validate_full (cfg : Config) (ip : IPData) (w : World) :
  Forall is_rule_data (RULES cfg) →
  ∃ ip' w',
    validate cfg ip w = (Ok ip', w') ∧
    ip_str ip' = ip_str ip ∧ is_Some (http ip') ∧ is_Some (https ip') ∧
    redis w' = redis w ∧ redis_up w' = redis_up w ∧ trace w' = trace w.
Proof.
  intros Hwf.
  destruct (echo_stages_run ip w)
    as (ip1 & w1 & Hrun1 & -> & Hstr & Hhttp & Hhttps & _).
  set (w1 := after_request _ (after_request _ w)) in *.
  destruct (rules_check_run cfg ip1 w1 Hwf)
    as (w' & Hrun2 & _ & _ & Hredis & Hup & Htrace).
  eexists _, w'. split.
  { unfold validate. unfold echo_stages in Hrun1.
    rewrite bind_run in Hrun1 |- *.
    destruct (http_check ip w) as [[ip0| |] w0]; [|done|done].
    rewrite bind_run. rewrite Hrun1. exact Hrun2. }
  simpl. rewrite Hhttp, Hhttps, Hredis, Hup, Htrace.
  repeat split; (done || by eexists).
Qed.

Lemma start_check_run (cfg : Config) (save_ip : IPData → M unit)
    (w : World) (v : string) (rest : list string) :
  redis_up w = true →
  pending_queue cfg w = v :: rest →
  start_check cfg save_ip w =
  (validate cfg (with_str v)
   ≫= λ ip, Logger.info (result_line ip);; save_ip ip) (popped cfg v rest w).
Proof.
  intros Hup Hqueue. rewrite <- validate_then.
  unfold start_check. rewrite bind_run. unfold Redis.share. rewrite Hup.
  rewrite bind_run. unfold Redis.blpop.
  fold (pending_queue cfg w). rewrite Hqueue. reflexivity.
Qed.

Lemma start_check_no_endpoint (cfg : Config) (save_ip : IPData → M unit)
    (w : World) :
  (redis_up w = false →
   start_check cfg save_ip w = (Raise (RedisError "connection refused"), w)) ∧
  (redis_up w = true → pending_queue cfg w = [] →
   start_check cfg save_ip w = (Blocked, w)).
Proof.
  split.
  - intros Hup. unfold start_check. rewrite bind_run. unfold Redis.share.
    by rewrite Hup.
  - intros Hup Hqueue. unfold start_check. rewrite bind_run.
    unfold Redis.share. rewrite Hup. rewrite bind_run. unfold Redis.blpop.
    fold (pending_queue cfg w). by rewrite Hqueue.
Qed.

Lemma pending_queue_popped (cfg : Config) (v : string) (rest : list string)
    (w : World) :
  pending_queue cfg (popped cfg v rest w) = rest.
Proof. unfold pending_queue, popped. simpl. apply list_at_with_list. Qed.

(** X5: with a reachable store and a well-formed rule list, [start_check]
    takes the head of the pending queue and nothing else from it, logs and
    counts the endpoint once, runs the pass on an entry made fresh for that
    endpoint, logs the result and hands the entry with its boolean outcomes
    to the ledger; the verified pool is not touched before the ledger
    runs. *)
Theorem start_check_pops_head (cfg : Config) (save_ip : IPData → M unit)
    (w : World) (v : string) (rest : list string) :
  redis_up w = true →
  pending_queue cfg w = v :: rest →
  Forall is_rule_data (RULES cfg) →
  ∃ ip' w1,
    start_check cfg save_ip w = save_ip ip' w1 ∧
    ip_str ip' = v ∧ is_Some (http ip') ∧ is_Some (https ip') ∧
    pending_queue cfg w1 = rest ∧
    verified_pool cfg w1 = verified_pool cfg w ∧
    trace w1 = trace w ++ popped_lines v ++ [Log INFO (result_line ip')].
Proof.
  intros Hup Hqueue Hwf.
  rewrite (start_check_run cfg save_ip w v rest Hup Hqueue), bind_run.
  destruct (validate_full cfg (with_str v) (popped cfg v rest w) Hwf)
    as (ip' & w' & Hrun & Hstr & Hhttp & Hhttps & Hredis & _ & Htrace).
  rewrite Hrun.
  exists ip', (logged INFO (result_line ip') w'). split; [done|].
  split; [done|]. split; [done|]. split; [done|].
  split; [|split].
  - unfold pending_queue, logged. simpl. rewrite Hredis.
    apply pending_queue_popped.
  - unfold verified_pool, logged. simpl. by rewrite Hredis.
  - unfold logged. simpl. rewrite Htrace. simpl.
    by rewrite <- !app_assoc.
Qed.

(** The hypotheses of X5 hold for a queue of two endpoints: the first one
    is checked and the second one stays in the queue. *)
Lemma start_check_pops_head_two :
  ∃ ip' w1,
    start_check hello_config no_ledger
      (store_world ["10.0.1.0:80"; "10.0.1.1:80"] []) = no_ledger ip' w1 ∧
    ip_str ip' = "10.0.1.0:80" ∧
    pending_queue hello_config w1 = ["10.0.1.1:80"].
Proof.
  destruct (start_check_pops_head hello_config no_ledger
              (store_world ["10.0.1.0:80"; "10.0.1.1:80"] [])
              "10.0.1.0:80" ["10.0.1.1:80"])
    as (ip' & w1 & Hrun & Hstr & _ & _ & Hqueue & _).
  - reflexivity.
  - reflexivity.
  - repeat constructor.
  - by exists ip', w1.
Defined.

Lemma validate_malformed (cfg : Config) (ip : IPData) (w : World)
    (good : list RuleEntry) (repr : string) (rest : list RuleEntry) :
  RULES cfg = good ++ NotRuleData repr :: rest →
  Forall is_rule_data good →
  ∃ w',
    validate cfg ip w = (Raise (AssertionError "Error rule format"), w') ∧
    redis w' = redis w ∧ redis_up w' = redis_up w ∧ trace w' = trace w.
Proof.
  intros Hsplit Hgood.
  destruct (echo_stages_run ip w) as (ip1 & w1 & Hrun1 & -> & _).
  set (w1 := after_request _ (after_request _ w)) in *.
  destruct (rules_loop_malformed ip1 good repr rest Hgood ∅ w1)
    as (w' & Hloop & _ & Hredis & Hup & Htrace).
  exists w'. split; [|by rewrite Hredis, Hup, Htrace].
  unfold validate. unfold echo_stages in Hrun1.
  rewrite bind_run in Hrun1 |- *.
  destruct (http_check ip w) as [[ip0| |] w0]; [|done|done].
  rewrite bind_run. rewrite Hrun1. unfold rules_check.
  by rewrite bind_run, Hsplit, Hloop.
Qed.

(** X6: when the rule list holds an entry that is not a [RuleData], the
    endpoint [start_check] popped is lost: it is taken from the queue,
    logged and counted, the assertion error leaves [start_check], and the
    ledger is never called, whatever it is. *)
Theorem start_check_drops_on_malformed (cfg : Config)
    (save_ip : IPData → M unit) (w : World) (v : string) (rest : list string)
    (good : list RuleEntry) (repr : string) (others : list RuleEntry) :
  redis_up w = true →
  pending_queue cfg w = v :: rest →
  RULES cfg = good ++ NotRuleData repr :: others →
  Forall is_rule_data good →
  ∃ w1,
    start_check cfg save_ip w = (Raise (AssertionError "Error rule format"), w1) ∧
    pending_queue cfg w1 = rest ∧
    verified_pool cfg w1 = verified_pool cfg w ∧
    trace w1 = trace w ++ popped_lines v.
Proof.
  intros Hup Hqueue Hsplit Hgood.
  rewrite (start_check_run cfg save_ip w v rest Hup Hqueue), bind_run.
  destruct (validate_malformed cfg (with_str v) (popped cfg v rest w)
              good repr others Hsplit Hgood)
    as (w1 & -> & Hredis & _ & Htrace).
  exists w1. split; [done|]. split; [|split].
  - unfold pending_queue. rewrite Hredis. apply pending_queue_popped.
  - unfold verified_pool. by rewrite Hredis.
  - rewrite Htrace. simpl. by rewrite <- app_assoc.
Qed.

(** The hypotheses of X6 hold for the malformed list and a queue of one
    endpoint: the queue is left empty. *)
Lemma start_check_drops_on_malformed_one :
  ∃ w1,
    start_check malformed_config no_ledger (store_world ["10.0.1.0:80"] [])
      = (Raise (AssertionError "Error rule format"), w1) ∧
    pending_queue malformed_config w1 = [].
Proof.
  destruct (start_check_drops_on_malformed malformed_config no_ledger
              (store_world ["10.0.1.0:80"] []) "10.0.1.0:80" []
              [] "{'key': 'site', 'url': 'http://first.example/'}" [])
    as (w1 & Hrun & Hqueue & _).
  - reflexivity.
  - reflexivity.
  - reflexivity.
  - constructor.
  - by exists w1.
Defined.

(** ** The worker over a queue *)

Lemma check_task_body_ok (cfg : Config) (save_ip : IPData → M unit)
    (w w1 : World) :
  start_check cfg save_ip (logged DEBUG "[check] check task loop" w) = (Ok (), w1) →
  check_task_body cfg save_ip w = (Ok (bool_decide (APP_ENV cfg = TEST)), w1).
Proof.
  intros Hstart. unfold check_task_body.
  rewrite bind_run. unfold Logger.debug. rewrite log_run.
  fold (logged DEBUG "[check] check task loop" w).
  rewrite bind_run, try_except_run, Hstart.
  by case_decide; case_bool_decide.
Qed.

Lemma check_task_body_blocked (cfg : Config) (save_ip : IPData → M unit)
    (w w1 : World) :
  start_check cfg save_ip (logged DEBUG "[check] check task loop" w) = (Blocked, w1) →
  check_task_body cfg save_ip w = (Blocked, w1).
Proof.
  intros Hstart. unfold check_task_body.
  rewrite bind_run. unfold Logger.debug. rewrite log_run.
  fold (logged DEBUG "[check] check task loop" w).
  by rewrite bind_run, try_except_run, Hstart.
Qed.

Lemma check_task_step (cfg : Config) (save_ip : IPData → M unit)
    (w : World) (v : string) (rest : list string) :
  Forall is_rule_data (RULES cfg) →
  ledger_keeps_queue cfg save_ip →
  redis_up w = true →
  pending_queue cfg w = v :: rest →
  ∃ w1,
    check_task_body cfg save_ip w = (Ok (bool_decide (APP_ENV cfg = TEST)), w1) ∧
    redis_up w1 = true ∧ pending_queue cfg w1 = rest.
Proof.
  intros Hwf Hledger Hup Hqueue.
  set (w0 := logged DEBUG "[check] check task loop" w).
  destruct (validate_full cfg (with_str v) (popped cfg v rest w0) Hwf)
    as (ip' & w' & Hrun & _ & _ & _ & Hredis & Hup' & _).
  destruct (Hledger ip' (logged INFO (result_line ip') w'))
    as (w1 & Hsave & Hup1 & Hqueue1).
  exists w1. split; [|split].
  - apply check_task_body_ok. fold w0.
    rewrite (start_check_run cfg save_ip w0 v rest Hup Hqueue), bind_run, Hrun.
    exact Hsave.
  - rewrite Hup1. simpl. by rewrite Hup'.
  - rewrite Hqueue1. unfold pending_queue, logged. simpl. rewrite Hredis.
    apply pending_queue_popped.
Qed.

(** X7: in the continuous mode, with a reachable store, a well-formed rule
    list and a ledger that returns and leaves the queue alone, the worker
    checks the endpoints of the pending queue one per iteration until the
    queue is empty, and then waits on the empty queue; it neither raises
    nor leaves the loop. *)
Theorem check_task_drains_queue (cfg : Config) (save_ip : IPData → M unit)
    (w : World) :
  APP_ENV cfg ≠ TEST →
  Forall is_rule_data (RULES cfg) →
  ledger_keeps_queue cfg save_ip →
  redis_up w = true →
  ∃ w',
    check_task cfg save_ip (length (pending_queue cfg w)) w = (Ok false, w') ∧
    pending_queue cfg w' = [] ∧
    ∀ more, (check_task cfg save_ip (length (pending_queue cfg w) + S more) w).1
            = Blocked.
Proof.
  intros Hlive Hwf Hledger.
  remember (pending_queue cfg w) as queue eqn:Hqueue.
  revert w Hqueue. induction queue as [|v rest IH]; intros w Hqueue Hup.
  - exists w. split; [done|]. split; [done|]. intros more. simpl.
    unfold check_task. simpl. rewrite bind_run.
    rewrite (check_task_body_blocked cfg save_ip w
               (logged DEBUG "[check] check task loop" w)); [done|].
    by apply start_check_no_endpoint.
  - destruct (check_task_step cfg save_ip w v rest Hwf Hledger Hup (eq_sym Hqueue))
      as (w1 & Hbody & Hup1 & Hqueue1).
    rewrite bool_decide_eq_false_2 in Hbody by done.
    destruct (IH w1 (eq_sym Hqueue1) Hup1) as (w' & Hrun & Hempty & Hblocked).
    exists w'. split; [|split; [done|]].
    + unfold check_task in *. simpl. by rewrite bind_run, Hbody.
    + intros more. unfold check_task in *. simpl.
      rewrite bind_run, Hbody. apply Hblocked.
Qed.

(** The hypotheses of X7 hold for a queue of two endpoints and a ledger
    that only returns: two iterations empty the queue and the third one
    waits. *)
Lemma check_task_drains_queue_two :
  let w := store_world ["10.0.1.0:80"; "10.0.1.1:80"] [] in
  ∃ w',
    check_task (live_config []) no_ledger 2 w = (Ok false, w') ∧
    pending_queue (live_config []) w' = [] ∧
    (check_task (live_config []) no_ledger 3 w).1 = Blocked.
Proof.
  intros w.
  destruct (check_task_drains_queue (live_config []) no_ledger w)
    as (w' & Hrun & Hempty & Hblocked).
  - discriminate.
  - constructor.
  - intros ip w0. by exists w0.
  - reflexivity.
  - exists w'. split; [exact Hrun|]. split; [exact Hempty|].
    exact (Hblocked 0%nat).
Defined.

(** ** The sweeper, again *)

Lemma remove_low_score_ip_run (cfg : Config) (w : World) :
  remove_low_score_ip cfg w =
  if redis_up w then (Ok (), swept cfg w)
  else (Raise (RedisError "connection refused"), w).
Proof.
  unfold remove_low_score_ip, swept.
  rewrite bind_run. unfold Redis.share at 1.
  destruct (redis_up w) eqn:Hup; [|done].
  rewrite bind_run. unfold Redis.zrangebyscore.
  fold (verified_pool cfg w). fold (in_band (verified_pool cfg w) (-100) 0).
  destruct (in_band (verified_pool cfg w) (-100) 0) as [|m ms] eqn:Hips; [done|].
  change (if (0 <? length (m :: ms))%nat then m :: ms else []) with (m :: ms).
  cbv beta iota zeta.
  rewrite bind_run. unfold IPSaver.remove_ip.
  rewrite bind_run. unfold Redis.share. rewrite Hup.
  unfold Redis.zrem. fold (verified_pool cfg w). reflexivity.
Qed.

Lemma filter_filter_neg {A} (P : A → Prop) `{∀ x, Decision (P x)} (l : list A) :
  filter P (filter (λ x, ¬ P x) l) = [].
Proof.
  induction l as [|a l IH]; [done|].
  rewrite filter_cons. destruct (decide (¬ P a)) as [Hno|Hyes]; [|done].
  rewrite filter_cons, decide_False by done. exact IH.
Qed.

(** X8: what a cycle of the sweeper leaves behind: with no score in the
    range it changes nothing and logs nothing; otherwise it logs one line
    with the removed endpoints, joined by commas; when the store cannot be
    reached it raises and changes nothing. *)
Theorem remove_low_score_ip_trace (cfg : Config) (w : World) :
  (redis_up w = true → in_band (verified_pool cfg w) (-100) 0 = [] →
   remove_low_score_ip cfg w = (Ok (), w)) ∧
  (redis_up w = true → in_band (verified_pool cfg w) (-100) 0 ≠ [] →
   ∃ w',
     remove_low_score_ip cfg w = (Ok (), w') ∧
     trace w' = trace w ++ [remove_line (in_band (verified_pool cfg w) (-100) 0)] ∧
     clock w' = clock w ∧ lists (redis w') = lists (redis w) ∧
     stamps (redis w') = stamps (redis w)) ∧
  (redis_up w = false →
   remove_low_score_ip cfg w = (Raise (RedisError "connection refused"), w)).
Proof.
  rewrite remove_low_score_ip_run. unfold swept.
  split; [|split].
  - intros -> ->. done.
  - intros -> Hsome.
    destruct (in_band (verified_pool cfg w) (-100) 0) as [|m ms]; [done|].
    by eexists.
  - by intros ->.
Qed.

(** X9: the sweeper is idempotent: on a reachable store whose pool holds
    each member once, a second cycle right after a first one finds nothing
    to remove and changes nothing. *)
Theorem remove_low_score_ip_idempotent (cfg : Config) (w : World) :
  redis_up w = true →
  pool_wf (verified_pool cfg w) →
  ∃ w1,
    remove_low_score_ip cfg w = (Ok (), w1) ∧
    remove_low_score_ip cfg w1 = (Ok (), w1).
Proof.
  intros Hup Hwf. exists (swept cfg w).
  rewrite !remove_low_score_ip_run, Hup. split; [done|].
  assert (redis_up (swept cfg w) = true) as ->.
  { unfold swept. by destruct (in_band _ _ _). }
  f_equal. unfold swept at 1.
  assert (in_band (verified_pool cfg (swept cfg w)) (-100) 0 = []) as ->; [|done].
  unfold swept.
  destruct (in_band (verified_pool cfg w) (-100) 0) as [|m ms] eqn:Hips; [done|].
  unfold verified_pool at 1. simpl. rewrite zset_at_with_zset.
  rewrite <- Hips, remove_band by done.
  unfold in_band. by rewrite filter_filter_neg.
Qed.

(** The hypotheses of X9 hold for the pool with the scores -50, 0, 1 and
    100: the second cycle leaves the two entries the first one kept. *)
Lemma remove_low_score_ip_idempotent_four_scores :
  ∃ w1,
    remove_low_score_ip (sample_config []) (store_world [] four_scores) = (Ok (), w1) ∧
    remove_low_score_ip (sample_config []) w1 = (Ok (), w1).
Proof.
  apply (remove_low_score_ip_idempotent (sample_config [])
           (store_world [] four_scores)).
  - reflexivity.
  - apply (bool_decide_unpack _). by vm_compute.
Defined.

(** ** The loops of the three tasks *)

Lemma sleeps_snoc_log (t : list event) (lv : level) (msg : string) :
  sleeps (t ++ [Log lv msg]) = sleeps t.
Proof. unfold sleeps. rewrite omap_app. simpl. apply app_nil_r. Qed.

Lemma sleeps_snoc_sleep (t : list event) (s : Z) :
  sleeps (t ++ [Sleep s]) = sleeps t ++ [s].
Proof. unfold sleeps. by rewrite omap_app. Qed.

Lemma sleeps_backoff (t : list event) (e : exn) :
  sleeps (t ++ backoff e) = sleeps t ++ [5].
Proof. unfold sleeps, backoff. by rewrite omap_app. Qed.

Lemma while_true_once (body : M bool) :
  (∀ w, (body w).1 ≠ Ok false) →
  ∀ fuel w, while_true (S fuel) body w = while_true 1 body w.
Proof.
  intros Hbody fuel w. simpl. rewrite !bind_run.
  specialize (Hbody w). by destruct (body w) as [[[|]| |] w1].
Qed.

Lemma while_true_for_ever (body : M bool) :
  (∀ w, (body w).1 = Ok false) →
  ∀ fuel w, (while_true fuel body w).1 = Ok false.
Proof.
  intros Hbody. induction fuel as [|fuel IH]; intros w; [done|].
  simpl. rewrite bind_run. specialize (Hbody w).
  destruct (body w) as [[[|]| |] w1]; simpl in *; (done || apply IH).
Qed.

(** The loop body the periodic tasks share, for a task that never waits. *)
Lemma periodic_body_result (cfg : Config) (msg : string) (task : M unit)
    (interval : Z) (w : World) :
  (∀ w0, (task w0).1 ≠ Blocked) →
  ((Logger.debug msg;;
    try_except task handle_task_exception;;
    if decide (APP_ENV cfg = TEST) then mret true
    else sleep interval;; mret false) w).1
  = Ok (bool_decide (APP_ENV cfg = TEST)).
Proof.
  intros Htask. rewrite bind_run. unfold Logger.debug. rewrite log_run.
  cbv beta iota. rewrite bind_run, try_except_run.
  specialize (Htask (with_trace (trace w ++ [Log DEBUG msg]) w)).
  destruct (task _) as [[[]|e|] w1]; [| |done].
  - by case_decide; case_bool_decide.
  - rewrite handle_task_exception_run. by case_decide; case_bool_decide.
Qed.

Lemma remove_low_score_ip_not_blocked (cfg : Config) (w : World) :
  (remove_low_score_ip cfg w).1 ≠ Blocked.
Proof. rewrite remove_low_score_ip_run. by destruct (redis_up w). Qed.

Lemma resend_check_ip_not_blocked (cfg : Config) (w : World) :
  (resend_check_ip cfg w).1 ≠ Blocked.
Proof.
  rewrite resend_check_ip_run.
  destruct (redis_up w) eqn:Hup; [|done].
  destruct (decide (backpressure cfg w)); [done|].
  rewrite bind_run.
  destruct (Py.range _ _ _) as [e|starts]; [done|]. simpl.
  by destruct (resend_bands_run cfg starts w Hup) as (w' & -> & _).
Qed.

Lemma recheck_ip_try_not_blocked (cfg : Config) (w : World) :
  (recheck_ip_try cfg w).1 ≠ Blocked.
Proof.
  rewrite recheck_ip_try_run.
  destruct (redis_up w); [|done].
  destruct (decide (run_recorded cfg w)); [done|].
  apply resend_check_ip_not_blocked.
Qed.

(** X10: in the continuous mode the sweeper and the rebalancer never leave
    their loop: however many iterations are followed, from whatever world,
    the task is still running; it has not raised, returned or got stuck. *)
Theorem periodic_tasks_never_exit (cfg : Config) :
  APP_ENV cfg ≠ TEST →
  ∀ fuel w,
    (check_low_score_task cfg fuel w).1 = Ok false ∧
    (recheck_ip_task cfg fuel w).1 = Ok false.
Proof.
  intros Hlive fuel w. split.
  - apply while_true_for_ever. clear w. intros w.
    unfold check_low_score_task_body.
    rewrite periodic_body_result by apply remove_low_score_ip_not_blocked.
    by rewrite bool_decide_eq_false_2.
  - apply while_true_for_ever. clear w. intros w.
    unfold recheck_ip_task_body.
    rewrite periodic_body_result by apply recheck_ip_try_not_blocked.
    by rewrite bool_decide_eq_false_2.
Qed.

(** The hypothesis of X10 holds for the continuous sample configuration,
    here with a store that cannot be reached. *)
Lemma periodic_tasks_never_exit_redis_down :
  (check_low_score_task (live_config []) 3 redis_down_world).1 = Ok false ∧
  (recheck_ip_task (live_config []) 3 redis_down_world).1 = Ok false.
Proof.
  apply (periodic_tasks_never_exit (live_config [])). discriminate.
Defined.

(** X11: in the test mode each of the three loops is left after its first
    iteration: following it further changes nothing, and the two periodic
    tasks have then returned. *)
Theorem test_mode_single_iteration (cfg : Config) (save_ip : IPData → M unit) :
  APP_ENV cfg = TEST →
  ∀ fuel w,
    check_task cfg save_ip (S fuel) w = check_task cfg save_ip 1 w ∧
    check_low_score_task cfg (S fuel) w = check_low_score_task cfg 1 w ∧
    recheck_ip_task cfg (S fuel) w = recheck_ip_task cfg 1 w ∧
    (check_low_score_task cfg 1 w).1 = Ok true ∧
    (recheck_ip_task cfg 1 w).1 = Ok true.
Proof.
  intros Htest fuel w.
  assert (∀ w0, (check_low_score_task_body cfg w0).1 = Ok true) as Hsweep.
  { intros w0. unfold check_low_score_task_body.
    rewrite periodic_body_result by apply remove_low_score_ip_not_blocked.
    by rewrite bool_decide_eq_true_2. }
  assert (∀ w0, (recheck_ip_task_body cfg w0).1 = Ok true) as Hrecheck.
  { intros w0. unfold recheck_ip_task_body.
    rewrite periodic_body_result by apply recheck_ip_try_not_blocked.
    by rewrite bool_decide_eq_true_2. }
  split; [|split; [|split; [|split]]].
  - apply while_true_once. intros w0. unfold check_task_body.
    rewrite bind_run. unfold Logger.debug. rewrite log_run.
    cbv beta iota. rewrite bind_run, try_except_run.
    destruct (start_check cfg save_ip _) as [[[]|e|] w1]; [| |done].
    + by rewrite decide_True.
    + rewrite handle_task_exception_run. by rewrite decide_True.
  - apply while_true_once. intros w0. by rewrite Hsweep.
  - apply while_true_once. intros w0. by rewrite Hrecheck.
  - unfold check_low_score_task. simpl. rewrite bind_run.
    specialize (Hsweep w).
    by destruct (check_low_score_task_body cfg w) as [[[|]| |] w1].
  - unfold recheck_ip_task. simpl. rewrite bind_run.
    specialize (Hrecheck w).
    by destruct (recheck_ip_task_body cfg w) as [[[|]| |] w1].
Qed.

(** The hypothesis of X11 holds for the sample configuration. *)
Lemma test_mode_single_iteration_sample :
  check_low_score_task (sample_config []) 5 (store_world [] four_scores)
  = check_low_score_task (sample_config []) 1 (store_world [] four_scores).
Proof.
  destruct (test_mode_single_iteration (sample_config []) no_ledger eq_refl
              4%nat (store_world [] four_scores)) as (_ & Hsweep & _).
  exact Hsweep.
Defined.

(** X12: the sleeps of one iteration of the sweeper: the backoff of 5
    seconds exactly when the store could not be reached, then the clean
    interval exactly when the mode is not the test mode. *)
Theorem check_low_score_task_sleeps (cfg : Config) (w : World) :
  sleeps (trace (check_low_score_task_body cfg w).2) =
  sleeps (trace w)
  ++ (if redis_up w then [] else [5])
  ++ (if decide (APP_ENV cfg = TEST) then []
      else [DEFAULT_CHECK_CLEAN_IP_INTERVAL cfg]).
Proof.
  unfold check_low_score_task_body.
  rewrite bind_run. unfold Logger.debug. rewrite log_run.
  cbv beta iota. rewrite bind_run, try_except_run, remove_low_score_ip_run.
  change (redis_up (with_trace _ w)) with (redis_up w).
  destruct (redis_up w).
  - assert (sleeps (trace (swept cfg
              (with_trace (trace w ++ [Log DEBUG "[check] check low score task loop"]) w)))
            = sleeps (trace w)) as Hswept.
    { unfold swept. destruct (in_band _ _ _); simpl.
      - apply sleeps_snoc_log.
      - unfold remove_line. by rewrite !sleeps_snoc_log. }
    case_decide.
    + rewrite !app_nil_r. exact Hswept.
    + simpl. by rewrite sleeps_snoc_sleep, Hswept.
  - rewrite handle_task_exception_run.
    case_decide.
    + rewrite app_nil_r. simpl.
      by rewrite sleeps_backoff, sleeps_snoc_log.
    + simpl.
      by rewrite sleeps_snoc_sleep, sleeps_backoff, sleeps_snoc_log, <- app_assoc.
Qed.

(** ** The rebalancer, again *)

Lemma resend_bands_trace (cfg : Config) (starts : list Z) :
  ∀ w, redis_up w = true →
  ∃ w',
    resend_bands cfg starts w = (Ok (), w') ∧
    zsets (redis w') = zsets (redis w) ∧
    trace w' =
      trace w ++
      omap (λ i, band_line (in_band (verified_pool cfg w) i
                              (i + DEFAULT_INC_SCORE cfg - 1))) starts.
Proof.
  induction starts as [|i rest IH]; intros w Hup.
  - exists w. simpl. by rewrite app_nil_r.
  - simpl. rewrite bind_run. unfold Redis.zrangebyscore.
    fold (verified_pool cfg w).
    fold (in_band (verified_pool cfg w) i (i + DEFAULT_INC_SCORE cfg - 1)).
    destruct (in_band (verified_pool cfg w) i (i + DEFAULT_INC_SCORE cfg - 1))
      as [|m ms] eqn:Hband.
    + rewrite bind_run. simpl. apply IH, Hup.
    + rewrite bind_run.
      set (w1 := with_trace (trace w ++ [send_line (length (m :: ms))])
                   (with_redis (Redis.with_list (REDIS_KEY_CHECK_POOL cfg)
                                  (pending_queue cfg w ++ m :: ms) (redis w)) w)).
      assert ((push_to_pool cfg (m :: ms);; mret ()) w = (Ok (), w1)) as ->.
      { rewrite bind_run. unfold push_to_pool. rewrite bind_run.
        unfold Redis.share. rewrite Hup. reflexivity. }
      destruct (IH w1 Hup) as (w' & Hrun & Hz & Htrace).
      exists w'. split; [exact Hrun|]. split; [done|].
      rewrite Htrace. unfold w1 at 1. simpl. by rewrite <- app_assoc.
Qed.

(** X13: what the redistribution never does, whatever the configuration
    and the world: it never waits, it changes neither the verified pool nor
    the last-run stamps nor the clock, and it takes nothing from the
    pending queue, whose old content stays in front. *)
Theorem resend_check_ip_frame (cfg : Config) (w : World) :
  (resend_check_ip cfg w).1 ≠ Blocked ∧
  zsets (redis (resend_check_ip cfg w).2) = zsets (redis w) ∧
  stamps (redis (resend_check_ip cfg w).2) = stamps (redis w) ∧
  clock (resend_check_ip cfg w).2 = clock w ∧
  pending_queue cfg w `prefix_of` pending_queue cfg (resend_check_ip cfg w).2.
Proof.
  rewrite resend_check_ip_run.
  destruct (redis_up w) eqn:Hup; [|done].
  destruct (decide (backpressure cfg w)); [done|].
  rewrite bind_run.
  destruct (Py.range _ _ _) as [e|starts]; [done|]. simpl.
  destruct (resend_bands_run cfg starts w Hup)
    as (w' & -> & _ & Hclock & Hz & Hs & Hq).
  simpl. rewrite Hq. repeat split; try done. by eexists.
Qed.

Lemma omap_fmap_ext {A B C} (f : B → option C) (g : A → B) (h : A → option C)
    (l : list A) :
  (∀ x, f (g x) = h x) → omap f (g <$> l) = omap h l.
Proof.
  intros Hfg. induction l as [|a l IH]; [done|].
  simpl. rewrite Hfg. destruct (h a); [f_equal|]; exact IH.
Qed.

(** X14: how many log lines a cycle that passes the guards leaves: one line
    of [push_to_pool] for each band with a member, with the number of its
    members, in the order of the bands, and none for an empty band. *)
Theorem resend_check_ip_lines (cfg : Config) (w : World) :
  0 < DEFAULT_INC_SCORE cfg →
  redis_up w = true →
  ¬ backpressure cfg w →
  ∃ w',
    resend_check_ip cfg w = (Ok (), w') ∧
    trace w' = trace w ++ band_lines cfg (verified_pool cfg w).
Proof.
  intros Hinc Hup Hguard.
  rewrite resend_check_ip_run, Hup, decide_False by done.
  rewrite bind_run, range_bands by done.
  destruct (resend_bands_trace cfg (band_lo cfg <$> seq 0 (band_count cfg)) w Hup)
    as (w' & Hrun & _ & Htrace).
  exists w'. split; [exact Hrun|].
  rewrite Htrace. unfold band_lines. f_equal.
  apply omap_fmap_ext. intros k. by rewrite band_hi_lo.
Qed.

(** The hypotheses of X14 hold for an empty queue and the pool of ten
    endpoints, one in each of the first ten bands: ten lines for one
    endpoint each, and none for the eleventh band. *)
Lemma resend_check_ip_lines_ten :
  ∃ w',
    resend_check_ip (sample_config []) (store_world [] ten_pool) = (Ok (), w') ∧
    trace w' = replicate 10 (send_line 1).
Proof.
  destruct (resend_check_ip_lines (sample_config []) (store_world [] ten_pool))
    as (w' & Hrun & Htrace).
  - reflexivity.
  - reflexivity.
  - intros Hguard. vm_compute in Hguard. by apply Hguard.
  - exists w'. split; [exact Hrun|]. rewrite Htrace. by vm_compute.
Defined.

Lemma elem_of_bands (f : nat → list string) (e : string) (n : nat) :
  e ∈ concat (f <$> seq 0 n) ↔ ∃ k, (k < n)%nat ∧ e ∈ f k.
Proof.
  induction n as [|n IH].
  - simpl. split; [by intros ?%elem_of_nil|intros (k & ? & _); lia].
  - rewrite seq_S, fmap_app, concat_app, elem_of_app, IH. simpl.
    rewrite app_nil_r. split.
    + intros [(k & Hk & Hin)|Hin]; [exists k; split; [lia|done]|].
      exists n. split; [lia|done].
    + intros (k & Hk & Hin). destruct (decide (k = n)) as [->|Hne].
      * by right.
      * left. exists k. split; [lia|done].
Qed.

Lemma band_count_top (cfg : Config) (s : Z) :
  0 < DEFAULT_INC_SCORE cfg → DEFAULT_MINI_SCORE cfg < s →
  (Z.to_nat ((s - DEFAULT_MINI_SCORE cfg - 1) / DEFAULT_INC_SCORE cfg)
   < band_count cfg)%nat
  ↔ s ≤ band_top cfg.
Proof.
  intros Hinc Hmin. unfold band_top.
  set (inc := DEFAULT_INC_SCORE cfg) in *.
  set (d := s - DEFAULT_MINI_SCORE cfg - 1).
  assert (0 ≤ d) as Hd by (unfold d; lia).
  pose proof (Z.div_mod d inc ltac:(lia)) as Hdiv.
  pose proof (Z.mod_pos_bound d inc Hinc) as Hmod.
  assert (0 ≤ d / inc) as Hq by (apply Z.div_pos; lia).
  assert ((Z.to_nat (d / inc) < band_count cfg)%nat
          ↔ d / inc < Z.of_nat (band_count cfg)) as -> by lia.
  unfold d in *. split; intros H; nia.
Qed.

(** X15: which endpoints a cycle over the bands pushes: exactly the members
    of the pool whose score is above the minimum and at most the top of the
    last band, each of them once; that top lies above the maximum score, by
    INC-1 at least, so that members with a score just above the maximum are
    pushed as well. *)
Theorem band_members_exact (cfg : Config) (pool : list (string * Z)) :
  0 < DEFAULT_INC_SCORE cfg →
  pool_wf pool →
  NoDup (band_members cfg pool) ∧
  (∀ e, e ∈ band_members cfg pool
        ↔ ∃ s, (e, s) ∈ pool ∧ DEFAULT_MINI_SCORE cfg < s ≤ band_top cfg) ∧
  (DEFAULT_MINI_SCORE cfg ≤ DEFAULT_MAX_SCORE cfg →
   DEFAULT_MAX_SCORE cfg + DEFAULT_INC_SCORE cfg - 1 ≤ band_top cfg
   ≤ DEFAULT_MAX_SCORE cfg + 2 * DEFAULT_INC_SCORE cfg - 2).
Proof.
  intros Hinc Hwf.
  assert (∀ e k, e ∈ in_band pool (band_lo cfg k) (band_hi cfg k) →
                 ∃ s, (e, s) ∈ pool ∧ DEFAULT_MINI_SCORE cfg < s ∧
                      k = Z.to_nat ((s - DEFAULT_MINI_SCORE cfg - 1)
                                    / DEFAULT_INC_SCORE cfg)) as Hin_band.
  { intros e k (s & Hin & Hband)%elem_of_in_band.
    assert (DEFAULT_MINI_SCORE cfg < s) as Hmin
      by (unfold band_lo in Hband; nia).
    exists s. split; [done|]. split; [done|]. by apply in_band_index. }
  split; [|split].
  - unfold band_members. induction (band_count cfg) as [|n IH]; [constructor|].
    rewrite seq_S, fmap_app, concat_app. simpl. rewrite app_nil_r.
    apply NoDup_app. split; [exact IH|]. split; [|by apply in_band_NoDup].
    intros e (k & Hk & Hin)%elem_of_bands Hin'.
    apply Hin_band in Hin as (s & Hs & _ & ->).
    apply Hin_band in Hin' as (s' & Hs' & _ & ->).
    rewrite (pool_wf_score pool e s s') in Hk by done. lia.
  - intros e. unfold band_members. rewrite elem_of_bands. split.
    + intros (k & Hk & Hin). apply Hin_band in Hin as (s & Hs & Hmin & ->).
      exists s. split; [done|]. split; [done|]. by apply band_count_top.
    + intros (s & Hs & Hmin & Htop). eexists. split.
      * by apply band_count_top.
      * apply elem_of_in_band. exists s. split; [done|]. by apply in_band_index.
  - intros Hle. unfold band_top, band_count.
    set (inc := DEFAULT_INC_SCORE cfg) in *.
    set (n := DEFAULT_MAX_SCORE cfg + inc - (DEFAULT_MINI_SCORE cfg + 1) + inc - 1).
    pose proof (Z.div_mod n inc ltac:(lia)) as Hdiv.
    pose proof (Z.mod_pos_bound n inc Hinc) as Hmod.
    assert (0 ≤ n / inc) as Hq by (apply Z.div_pos; unfold n; lia).
    rewrite Z2Nat.id by done. unfold n in *. nia.
Qed.

(** The hypotheses of X15 hold for the default bands: a member with the
    score 105, above the maximum of 100, is pushed, one with the score 111
    is not. *)
Lemma band_members_exact_above_maximum :
  band_top (sample_config []) = 110 ∧
  band_members (sample_config []) [("10.0.3.1:80", 105); ("10.0.3.2:80", 111)]
  = ["10.0.3.1:80"].
Proof.
  destruct (band_members_exact (sample_config [])
              [("10.0.3.1:80", 105); ("10.0.3.2:80", 111)])
    as (_ & _ & Htop).
  - reflexivity.
  - apply (bool_decide_unpack _). by vm_compute.
  - split; [|reflexivity]. specialize (Htop ltac:(done)).
    change (DEFAULT_MAX_SCORE (sample_config [])) with 100 in Htop.
    change (DEFAULT_INC_SCORE (sample_config [])) with 10 in Htop.
    reflexivity.
Defined.

Lemma in_band_empty_range (pool : list (string * Z)) (lo hi : Z) :
  hi < lo → in_band pool lo hi = [].
Proof.
  intros Hlt. unfold in_band.
  induction pool as [|[m s] pool IH]; [done|].
  rewrite filter_cons, decide_False by (simpl; lia). exact IH.
Qed.

Lemma resend_bands_empty (cfg : Config) (starts : list Z) (w : World) :
  Forall (λ i, in_band (verified_pool cfg w) i (i + DEFAULT_INC_SCORE cfg - 1) = [])
         starts →
  resend_bands cfg starts w = (Ok (), w).
Proof.
  induction 1 as [|i rest Hi _ IH]; [done|].
  simpl. rewrite bind_run. unfold Redis.zrangebyscore.
  fold (verified_pool cfg w).
  fold (in_band (verified_pool cfg w) i (i + DEFAULT_INC_SCORE cfg - 1)).
  rewrite Hi. rewrite bind_run. simpl. exact IH.
Qed.

(** X16: with a step of the bands that is not positive the redistribution
    pushes nothing and leaves the world as it is: past the guards, a step
    of zero makes [range] raise its value error, and a negative step gives
    bands that are all empty. *)
Theorem resend_check_ip_bad_step (cfg : Config) (w : World) :
  DEFAULT_INC_SCORE cfg ≤ 0 →
  (resend_check_ip cfg w).2 = w ∧
  (redis_up w = true → ¬ backpressure cfg w →
   (resend_check_ip cfg w).1 =
   if decide (DEFAULT_INC_SCORE cfg = 0)
   then Raise (ValueError "range() arg 3 must not be zero")
   else Ok ()).
Proof.
  intros Hinc.
  assert (∀ starts, resend_bands cfg starts w = (Ok (), w) ∨
                    DEFAULT_INC_SCORE cfg = 0) as Hbands.
  { intros starts. destruct (decide (DEFAULT_INC_SCORE cfg = 0)); [by right|].
    left. apply resend_bands_empty, Forall_forall. intros i _.
    apply in_band_empty_range. lia. }
  rewrite resend_check_ip_run.
  destruct (redis_up w) eqn:Hup; [|done].
  destruct (decide (backpressure cfg w)) as [|Hguard]; [done|].
  rewrite bind_run. unfold Py.range.
  destruct (Z.eqb_spec (DEFAULT_INC_SCORE cfg) 0) as [Hzero|Hneg].
  - split; [done|]. intros _ _. by rewrite decide_True.
  - destruct (Z.ltb_spec 0 (DEFAULT_INC_SCORE cfg)) as [?|_]; [lia|].
    simpl. destruct (Hbands ((λ k : nat, DEFAULT_MINI_SCORE cfg + 1
                                + Z.of_nat k * DEFAULT_INC_SCORE cfg)
                   <$> seq 0 (Z.to_nat ((DEFAULT_MINI_SCORE cfg + 1
                          - (DEFAULT_MAX_SCORE cfg + DEFAULT_INC_SCORE cfg)
                          - DEFAULT_INC_SCORE cfg - 1)
                         / - DEFAULT_INC_SCORE cfg)))) as [->|?]; [|done].
    split; [done|]. intros _ _. by rewrite decide_False.
Qed.

(** The hypothesis of X16 holds for the steps 0 and -200 over the pool of
    ten endpoints. *)
Lemma resend_check_ip_bad_step_samples :
  resend_check_ip (step_config 0) (store_world [] ten_pool)
  = (Raise (ValueError "range() arg 3 must not be zero"), store_world [] ten_pool) ∧
  resend_check_ip (step_config (-200)) (store_world [] ten_pool)
  = (Ok (), store_world [] ten_pool).
Proof.
  assert (∀ inc, ¬ backpressure (step_config inc) (store_world [] ten_pool))
    as Hguard by (intros inc H; vm_compute in H; by apply H).
  split.
  - destruct (resend_check_ip_bad_step (step_config 0) (store_world [] ten_pool))
      as [Hworld Hres]; [done|].
    specialize (Hres eq_refl (Hguard 0)).
    destruct (resend_check_ip (step_config 0) (store_world [] ten_pool)).
    simpl in *. by subst.
  - destruct (resend_check_ip_bad_step (step_config (-200)) (store_world [] ten_pool))
      as [Hworld Hres]; [done|].
    specialize (Hres eq_refl (Hguard (-200))).
    destruct (resend_check_ip (step_config (-200)) (store_world [] ten_pool)).
    simpl in *. by subst.
Defined.

(** X17: [push_to_pool] with endpoints to push and a reachable store
    returns their number, appends them in their order behind what the queue
    already holds, logs one line and touches nothing else of the store; when
    the store cannot be reached it raises and changes nothing. *)
Theorem push_to_pool_appends (cfg : Config) (ips : list string) (w : World) :
  ips ≠ [] →
  (redis_up w = true →
   ∃ w',
     push_to_pool cfg ips w = (Ok (Z.of_nat (length ips)), w') ∧
     pending_queue cfg w' = pending_queue cfg w ++ ips ∧
     trace w' = trace w ++ [send_line (length ips)] ∧
     zsets (redis w') = zsets (redis w) ∧
     stamps (redis w') = stamps (redis w) ∧
     ∀ k, k ≠ REDIS_KEY_CHECK_POOL cfg →
          Redis.list_at k (redis w') = Redis.list_at k (redis w)) ∧
  (redis_up w = false →
   push_to_pool cfg ips w = (Raise (RedisError "connection refused"), w)).
Proof.
  intros _. unfold push_to_pool. rewrite bind_run. unfold Redis.share.
  split; intros ->; [|done].
  eexists. split; [reflexivity|]. simpl.
  split; [|split; [done|split; [done|split; [done|]]]].
  - unfold pending_queue at 1. simpl. apply list_at_with_list.
  - intros k Hk. unfold Redis.list_at. simpl. by rewrite lookup_insert_ne.
Qed.

(** The hypothesis of X17 holds for one endpoint pushed behind another. *)
Lemma push_to_pool_appends_one :
  ∃ w',
    push_to_pool (sample_config []) ["10.0.1.1:80"] (store_world ["10.0.1.0:80"] [])
      = (Ok 1, w') ∧
    pending_queue (sample_config []) w' = ["10.0.1.0:80"; "10.0.1.1:80"].
Proof.
  destruct (push_to_pool_appends (sample_config []) ["10.0.1.1:80"]
              (store_world ["10.0.1.0:80"] [])) as [Hup _]; [done|].
  destruct (Hup eq_refl) as (w' & Hrun & Hqueue & _).
  exists w'. split; [exact Hrun|]. rewrite Hqueue. reflexivity.
Defined.
